(** * osint.js: the source adapters, the phone normaliser and the IP test

    A shallow embedding of [src/osint.js] (lines 32-129): [safeEncode],
    [fetchText], [fetchJson], [duckDuckGoSearch], [ipGeolocation],
    [rdapLookup], [dnsRecords], [normalizePhone] and [looksLikeIP].

    - A JavaScript string is its sequence of UTF-16 code units ([list N]).
    - The built-ins the program calls ([encodeURIComponent], [split],
      [trim], [startsWith], [includes], [match], [replace], [test]) are
      written out after ECMA-262, regular expressions as a backtracking
      matcher over a small syntax tree, so that every function of the
      program runs on concrete inputs.
    - [fetch] and the [dns/promises] resolvers are the outside world: a
      record of oracles [World].  Awaited promises are taken as settled
      (fulfilled or rejected); a call may also throw before it returns its
      promise.
    - An [async] function is a computation [Async A]: it threads the lines
      written to [console.error] and ends in a value or in a thrown error
      (the rejection of the promise it returns). *)

From Stdlib Require Import ZArith NArith Ascii String Bool Lia.
From stdpp Require Import base option list strings gmap.

Local Open Scope nat_scope.
Local Set Warnings "-register-all".

(** ** JavaScript strings *)

Abbreviation jsstring := (list N).

Module JsString.

(** The code unit of a one-byte character, and the string of a literal. *)
Definition cu (a : ascii) : N := N_of_ascii a.

Fixpoint js (s : string) : jsstring :=
  match s with
  | EmptyString => []
  | String a r => cu a :: js r
  end.

Definition in_range (lo hi c : N) : bool := ((lo <=? c) && (c <=? hi))%N.

(** [\d] and [[0-9]] *)
Definition is_digit (c : N) : bool := in_range 48 57 c.

Definition is_plus (c : N) : bool := (c =? 43)%N.

(** WhiteSpace and LineTerminator of ECMA-262: what [trim] strips and
    what [\s] matches. *)
Definition is_line_terminator (c : N) : bool :=
  ((c =? 10) || (c =? 13) || (c =? 8232) || (c =? 8233))%N.

Definition is_white_space (c : N) : bool :=
  (in_range 9 13 c || (c =? 32) || (c =? 160) || (c =? 5760)
   || in_range 8192 8202 c || (c =? 8232) || (c =? 8233) || (c =? 8239)
   || (c =? 8287) || (c =? 12288) || (c =? 65279))%N.

(** [s.startsWith(p)] *)
Fixpoint startsWith (p s : jsstring) : bool :=
  match p, s with
  | [], _ => true
  | _ :: _, [] => false
  | a :: p', b :: s' => (a =? b)%N && startsWith p' s'
  end.

(** [s.includes(p)] *)
Fixpoint includes (p s : jsstring) : bool :=
  startsWith p s ||
  match s with
  | [] => false
  | _ :: s' => includes p s'
  end.

(** [s.slice(n)] for [0 <= n] *)
Definition slice (n : nat) (s : jsstring) : jsstring := drop n s.

Fixpoint trimStart (s : jsstring) : jsstring :=
  match s with
  | [] => []
  | c :: t => if is_white_space c then trimStart t else s
  end.

Definition trimEnd (s : jsstring) : jsstring := rev (trimStart (rev s)).

(** [s.trim()] *)
Definition trim (s : jsstring) : jsstring := trimEnd (trimStart s).

(** [s.split(sep)] for a non-empty string [sep]: the pieces between the
    occurrences of [sep], found from left to right without overlap.
    [acc] is the current piece, reversed; [skip] counts the code units
    of a separator still to pass. *)
Fixpoint split_go (sep acc : jsstring) (skip : nat) (s : jsstring)
  : list jsstring :=
  match s with
  | [] => [rev acc]
  | c :: t =>
      match skip with
      | S k => split_go sep acc k t
      | O =>
          if startsWith sep s
          then rev acc :: split_go sep [] (length sep - 1) t
          else split_go sep (c :: acc) 0 t
      end
  end.

Definition split (sep s : jsstring) : list jsstring := split_go sep [] 0 s.

(** Truthiness of a string: only the empty string is falsy. *)
Definition truthy (s : jsstring) : bool :=
  match s with [] => false | _ :: _ => true end.

End JsString.
Export JsString.

(** ** Regular expressions *)

Module RegExp.

Inductive cls_item : Type :=
| CChar (c : N)            (* a character *)
| CRange (lo hi : N)       (* a-b *)
| CDigit                   (* \d *)
| CNotDigit                (* \D *)
| CSpace                   (* \s *)
| CNotSpace.               (* \S *)

Inductive regex : Type :=
| Empty
| Chr (c : N)                              (* a pattern character *)
| Any                                      (* . *)
| Class (neg : bool) (items : list cls_item)  (* [...] and [^...] *)
| Seq (a b : regex)
| Alt (a b : regex)                        (* a|b *)
| Star (greedy : bool) (r : regex)         (* r* and r*? *)
| Opt (greedy : bool) (r : regex)          (* r? and r?? *)
| Group (n : nat) (r : regex)              (* the n-th ( ) *)
| Bol                                      (* ^ *)
| Eol.                                     (* $ *)

(** [r+] is one [r] and then [r*]. *)
Definition Plus (greedy : bool) (r : regex) : regex :=
  Seq r (Star greedy r).

Fixpoint Lit (s : jsstring) : regex :=
  match s with
  | [] => Empty
  | [c] => Chr c
  | c :: t => Seq (Chr c) (Lit t)
  end.

Fixpoint Cat (rs : list regex) : regex :=
  match rs with
  | [] => Empty
  | [r] => r
  | r :: rs' => Seq r (Cat rs')
  end.

(** The flags [i] and [s]; [g] is a matter of the calling method. *)
Record flags : Type := { ignoreCase : bool; dotAll : bool }.

Definition no_flags : flags := {| ignoreCase := false; dotAll := false |}.
Definition flag_i : flags := {| ignoreCase := true; dotAll := false |}.
Definition flag_is : flags := {| ignoreCase := true; dotAll := true |}.

(** The other case of an ASCII letter.  Under [i] two code units match
    when their upper-case forms agree; a code unit above 127 never takes
    the form of an ASCII one (ECMA-262, Canonicalize), so against the
    ASCII characters of this program's patterns that is equality up to
    the case of an ASCII letter. *)
Definition swapcase (c : N) : N :=
  if in_range 97 122 c then (c - 32)%N
  else if in_range 65 90 c then (c + 32)%N
  else c.

Definition item_has (it : cls_item) (c : N) : bool :=
  match it with
  | CChar a => (a =? c)%N
  | CRange lo hi => in_range lo hi c
  | CDigit => is_digit c
  | CNotDigit => negb (is_digit c)
  | CSpace => is_white_space c
  | CNotSpace => negb (is_white_space c)
  end.

Definition item_mem (fl : flags) (it : cls_item) (c : N) : bool :=
  item_has it c || (ignoreCase fl && item_has it (swapcase c)).

Definition class_mem (fl : flags) (neg : bool) (items : list cls_item)
  (c : N) : bool :=
  xorb neg (existsb (fun it => item_mem fl it c) items).

Definition chr_mem (fl : flags) (a c : N) : bool :=
  (a =? c)%N || (ignoreCase fl && (a =? swapcase c)%N).

Definition any_mem (fl : flags) (c : N) : bool :=
  dotAll fl || negb (is_line_terminator c).

(** The state of a match: the index reached, the input from there on and
    the captures set so far. *)
Record mstate : Type :=
  { pos : nat; rest : jsstring; caps : list (nat * jsstring) }.

Definition advance (x : mstate) (t : jsstring) : mstate :=
  {| pos := S (pos x); rest := t; caps := caps x |}.

Fixpoint cap_get (n : nat) (cs : list (nat * jsstring)) : option jsstring :=
  match cs with
  | [] => None
  | (i, s) :: cs' => if Nat.eqb i n then Some s else cap_get n cs'
  end.

Definition cap_del (n : nat) (cs : list (nat * jsstring))
  : list (nat * jsstring) :=
  filter (fun e => fst e <> n) cs.

Definition cap_set (n : nat) (s : jsstring) (cs : list (nat * jsstring))
  : list (nat * jsstring) :=
  (n, s) :: cap_del n cs.

Fixpoint groups (r : regex) : list nat :=
  match r with
  | Seq a b | Alt a b => groups a ++ groups b
  | Star _ r' | Opt _ r' => groups r'
  | Group n r' => n :: groups r'
  | _ => []
  end.

(** Every round of a quantifier starts with the captures of its own
    groups undefined (ECMA-262, RepeatMatcher). *)
Definition enter (r : regex) (x : mstate) : mstate :=
  {| pos := pos x; rest := rest x;
     caps := foldr cap_del (caps x) (groups r) |}.

Definition one_char {R : Type} (p : N -> bool) (x : mstate)
  (k : mstate -> option R) : option R :=
  match rest x with
  | c :: t => if p c then k (advance x t) else None
  | [] => None
  end.

Definition or_else {R : Type} (a b : option R) : option R :=
  match a with
  | Some z => Some z
  | None => b
  end.

(** A round of a quantifier that matches the empty string is refused
    (ECMA-262, RepeatMatcher, step 2.b). *)
Definition moved {R : Type} (x : mstate) (k : mstate -> option R)
  : mstate -> option R :=
  fun y => if Nat.eqb (pos y) (pos x) then None else k y.

(** The rounds of [r*] and [r*?], [body] being one round of [r]: a greedy
    star tries one more round before it goes on with [k], a lazy one goes
    on with [k] first.  Every round uses up input, so [fuel] rounds are
    enough when [fuel] exceeds the length of the input left. *)
Fixpoint rounds {R : Type} (body : mstate -> (mstate -> option R) -> option R)
  (greedy : bool) (k : mstate -> option R) (fuel : nat) (x : mstate)
  : option R :=
  match fuel with
  | O => None
  | S fuel' =>
      let again := body x (moved x (rounds body greedy k fuel')) in
      if greedy then or_else again (k x) else or_else (k x) again
  end.

(** The backtracking matcher, in continuation-passing style: [m fl r x k]
    tries the ways [r] matches from [x], in the order of the standard,
    and returns the first one the continuation [k] accepts. *)
Fixpoint m {R : Type} (fl : flags) (r : regex) (x : mstate)
  (k : mstate -> option R) {struct r} : option R :=
  match r with
  | Empty => k x
  | Chr a => one_char (chr_mem fl a) x k
  | Any => one_char (any_mem fl) x k
  | Class neg items => one_char (class_mem fl neg items) x k
  | Seq a b => m fl a x (fun y => m fl b y k)
  | Alt a b => or_else (m fl a x k) (m fl b x k)
  | Star greedy r' =>
      rounds (fun x' => m fl r' (enter r' x')) greedy k
        (S (length (rest x))) x
  | Opt greedy r' =>
      let once := m fl r' (enter r' x) (moved x k) in
      if greedy then or_else once (k x) else or_else (k x) once
  | Group n r' =>
      m fl r' x
        (fun y =>
           k {| pos := pos y; rest := rest y;
                caps := cap_set n (take (pos y - pos x) (rest x)) (caps y) |})
  | Bol => if Nat.eqb (pos x) 0 then k x else None
  | Eol => match rest x with [] => k x | _ :: _ => None end
  end.

(** A regular expression with its flags, as a literal [/.../flags]. *)
Record regexp : Type := { pattern : regex; re_flags : flags }.

Definition match_at (re : regexp) (i : nat) (s : jsstring) : option mstate :=
  m (re_flags re) (pattern re) {| pos := i; rest := s; caps := [] |} Some.

(** What [exec] returns: where the match starts and stops, and the
    captures. *)
Record match_result : Type :=
  { m_start : nat; m_stop : nat; m_whole : jsstring;
    m_groups : list (nat * jsstring) }.

(** The first index from [i] on at which the pattern matches. *)
Fixpoint exec_from (re : regexp) (i : nat) (s : jsstring)
  : option match_result :=
  match match_at re i s with
  | Some y =>
      Some {| m_start := i; m_stop := pos y;
              m_whole := take (pos y - i) s; m_groups := caps y |}
  | None =>
      match s with
      | [] => None
      | _ :: t => exec_from re (S i) t
      end
  end.

(** [s.match(re)] for a [re] without [g], and [re.test(s)] *)
Definition str_match (re : regexp) (s : jsstring) : option match_result :=
  exec_from re 0 s.

Definition test (re : regexp) (s : jsstring) : bool :=
  match exec_from re 0 s with Some _ => true | None => false end.

(** [mr[n]]: [None] is [undefined]. *)
Definition group (mr : match_result) (n : nat) : option jsstring :=
  match n with
  | O => Some (m_whole mr)
  | S _ => cap_get n (m_groups mr)
  end.

(** [s.replace(re, repl)] for a [re] with [g] and a [repl] without [$]:
    every match, found from left to right, gives way to [repl]; after an
    empty match the search moves on by one code unit.  [skip] counts the
    code units of the last match still to pass. *)
Fixpoint replace_go (re : regexp) (repl : jsstring) (i skip : nat)
  (s : jsstring) : jsstring :=
  match skip with
  | S k =>
      match s with
      | [] => []
      | _ :: t => replace_go re repl (S i) k t
      end
  | O =>
      match match_at re i s with
      | Some y =>
          repl ++
          match s with
          | [] => []
          | c :: t =>
              match pos y - i with
              | O => c :: replace_go re repl (S i) 0 t
              | S n => replace_go re repl (S i) n t
              end
          end
      | None =>
          match s with
          | [] => []
          | c :: t => c :: replace_go re repl (S i) 0 t
          end
      end
  end.

Definition replace_all (re : regexp) (repl s : jsstring) : jsstring :=
  replace_go re repl 0 0 s.

(** [s.replace(re, repl)] for a [re] without [g]: the first match only. *)
Definition replace_first (re : regexp) (repl s : jsstring) : jsstring :=
  match exec_from re 0 s with
  | Some mr => take (m_start mr) s ++ repl ++ drop (m_stop mr) s
  | None => s
  end.

End RegExp.
Export RegExp.

(** ** Values, errors and asynchronous computations *)

Module Js.

(** What JSON bodies and resolver answers are made of.  The program
    never computes on a number it receives: a number is kept as the bit
    pattern of its binary64. *)
Inductive value : Type :=
| VNull
| VBool (b : bool)
| VNum (bits : N)
| VStr (s : jsstring)
| VArr (items : list value)
| VObj (fields : list (string * value)).

(** An [Error] object. *)
Record JsError : Type := { err_name : string; err_message : jsstring }.

(** How a call ends, and how an awaited promise settles. *)
Inductive result (A : Type) : Type :=
| Ok (a : A)
| Err (e : JsError).
Arguments Ok {A} a.
Arguments Err {A} e.

#[global] Instance result_ret : MRet result := fun A a => Ok a.
#[global] Instance result_bind : MBind result := fun A B f c =>
  match c with
  | Ok a => f a
  | Err e => Err e
  end.
#[global] Instance result_fmap : FMap result := fun A B f c =>
  match c with
  | Ok a => Ok (f a)
  | Err e => Err e
  end.

(** [p.catch(h)] on a promise *)
Definition promise_catch {A : Type} (p : result A) (h : JsError -> A)
  : result A :=
  match p with
  | Ok a => Ok a
  | Err e => Ok (h e)
  end.

(** The lines of [console.error], the latest first. *)
Definition console : Type := list (list value).

Definition Async (A : Type) : Type := console -> result A * console.

#[global] Instance async_ret : MRet Async := fun A a out => (Ok a, out).
#[global] Instance async_bind : MBind Async := fun A B f c out =>
  match c out with
  | (Ok a, out') => f a out'
  | (Err e, out') => (Err e, out')
  end.

(** [await p]: the value of the promise, or its rejection thrown *)
Definition await {A : Type} (p : result A) : Async A := fun out => (p, out).

(** A call that ends at once, in a value or in a thrown error *)
Definition now {A : Type} (c : result A) : Async A := fun out => (c, out).

(** [try { body } catch (e) { handler }] *)
Definition try_catch {A : Type} (body : Async A) (handler : JsError -> Async A)
  : Async A :=
  fun out =>
    match body out with
    | (Ok a, out') => (Ok a, out')
    | (Err e, out') => handler e out'
    end.

Definition console_error (args : list value) : Async unit :=
  fun out => (Ok tt, args :: out).

(** [u.f(...)] where [u] may be [undefined]: a TypeError then. *)
Definition TypeError : JsError :=
  {| err_name := "TypeError";
     err_message := js "Cannot read properties of undefined" |}.

Definition receiver {A : Type} (o : option A) : result A :=
  match o with
  | Some a => Ok a
  | None => Err TypeError
  end.

(** [a || b] where [a] is [null], [undefined] or a string *)
Definition or_string (a : option jsstring) (b : jsstring) : jsstring :=
  match a with
  | Some s => if truthy s then s else b
  | None => b
  end.

End Js.
Export Js.

(** ** [encodeURIComponent] *)

Module Uri.

Definition URIError : JsError :=
  {| err_name := "URIError"; err_message := js "URI malformed" |}.

(** The characters left as they are: letters, digits and [-_.!~*'()]. *)
Definition unreserved (c : N) : bool :=
  in_range 65 90 c || in_range 97 122 c || in_range 48 57 c
  || existsb (N.eqb c) [45; 95; 46; 33; 126; 42; 39; 40; 41]%N.

Definition is_lead (c : N) : bool := in_range 55296 56319 c.
Definition is_trail (c : N) : bool := in_range 56320 57343 c.

Definition utf8 (cp : N) : list N :=
  (if cp <? 128 then [cp]
   else if cp <? 2048 then
     [N.lor 192 (N.shiftr cp 6); N.lor 128 (N.land cp 63)]
   else if cp <? 65536 then
     [N.lor 224 (N.shiftr cp 12); N.lor 128 (N.land (N.shiftr cp 6) 63);
      N.lor 128 (N.land cp 63)]
   else
     [N.lor 240 (N.shiftr cp 18); N.lor 128 (N.land (N.shiftr cp 12) 63);
      N.lor 128 (N.land (N.shiftr cp 6) 63); N.lor 128 (N.land cp 63)])%N.

Definition hex_digit (d : N) : N :=
  (if d <? 10 then 48 + d else 55 + d)%N.

Definition percent (octet : N) : jsstring :=
  [37; hex_digit (N.shiftr octet 4); hex_digit (N.land octet 15)]%N.

Definition escape (cp : N) : jsstring := mjoin (percent <$> utf8 cp).

(** Encode of ECMA-262: an unreserved character stays, every other code
    point becomes the escapes of its UTF-8 octets, and a surrogate
    without its partner is a URIError. *)
Fixpoint encodeURIComponent (s : jsstring) : result jsstring :=
  match s with
  | [] => Ok []
  | c :: t =>
      if unreserved c then cons c <$> encodeURIComponent t
      else if is_trail c then Err URIError
      else if is_lead c then
        match t with
        | d :: t' =>
            if is_trail d
            then app (escape ((c - 55296) * 1024 + (d - 56320) + 65536)%N)
                   <$> encodeURIComponent t'
            else Err URIError
        | [] => Err URIError
        end
      else app (escape c) <$> encodeURIComponent t
  end.

End Uri.
Export Uri.

(** ** The outside world *)

Module Net.

Record fetch_opts : Type := { headers : list (string * jsstring) }.

(** A [Response]: its status, and how reading its body as text and as
    JSON settles. *)
Record Response : Type :=
  { status : Z; text : result jsstring; json : result value }.

(** [res.ok] *)
Definition ok (res : Response) : bool :=
  ((200 <=? status res) && (status res <=? 299))%Z.

(** What [fetch] and the resolvers of [dns/promises] answer.  A resolver
    call ends in a thrown error or in a promise, which settles. *)
Record World : Type :=
  { fetch : jsstring -> fetch_opts -> result Response;
    resolve : jsstring -> jsstring -> result (result value);
    resolveMx : jsstring -> result (result value);
    resolveTxt : jsstring -> result (result value);
    resolveNs : jsstring -> result (result value);
    resolveCname : jsstring -> result (result value) }.

End Net.
Export Net.

(** ** The program *)

Module Osint.

(** The double quote, written Q in the comments below, and the two
    negated classes of the patterns. *)
Definition dq : N := 34.
Definition not_gt : regex := Class true [CChar (cu ">")].
Definition not_dq : regex := Class true [CChar dq].

(* ----------------- Utilities ----------------- *)

(** [safeEncode]: [String(s)] of a string is the string. *)
Definition safeEncode (s : jsstring) : result jsstring :=
  encodeURIComponent s.

Definition fetchText (w : World) (u : jsstring) (opts : fetch_opts)
  : Async jsstring :=
  res ← await (fetch w u opts);
  await (text res).

Definition fetchJson (w : World) (u : jsstring) (opts : fetch_opts)
  : Async value :=
  res ← await (fetch w u opts);
  await (json res).

Definition no_opts : fetch_opts := {| headers := [] |}.

Definition user_agent : fetch_opts :=
  {| headers := [("User-Agent"%string, js "OSINT-Aggregator/1.0")] |}.

(* ----------------- DuckDuckGo scraper ----------------- *)

Record SearchResult : Type :=
  { title : jsstring; snippet : jsstring; link : jsstring }.

(** [/<a[^>]*class=Q[^Q]*result__a[^Q]*Q[^>]*href=Q([^Q]+)Q/i] *)
Definition re_href_result : regexp :=
  {| pattern :=
       Cat [Lit (js "<a"); Star true not_gt; Lit (js "class="); Chr dq;
            Star true not_dq; Lit (js "result__a"); Star true not_dq;
            Chr dq; Star true not_gt; Lit (js "href="); Chr dq;
            Group 1 (Plus true not_dq); Chr dq];
     re_flags := flag_i |}.

(** [/<a[^>]*href=Q([^Q]+)Q[^>]*>/i] *)
Definition re_href_any : regexp :=
  {| pattern :=
       Cat [Lit (js "<a"); Star true not_gt; Lit (js "href="); Chr dq;
            Group 1 (Plus true not_dq); Chr dq; Star true not_gt;
            Chr (cu ">")];
     re_flags := flag_i |}.

(** [/<a[^>]*class=Q[^Q]*result__a[^Q]*Q[^>]*>(.*?)<\/a>/is] *)
Definition re_title_result : regexp :=
  {| pattern :=
       Cat [Lit (js "<a"); Star true not_gt; Lit (js "class="); Chr dq;
            Star true not_dq; Lit (js "result__a"); Star true not_dq;
            Chr dq; Star true not_gt; Chr (cu ">");
            Group 1 (Star false Any); Lit (js "</a>")];
     re_flags := flag_is |}.

(** [/<a[^>]*>(.*?)<\/a>/is] *)
Definition re_title_any : regexp :=
  {| pattern :=
       Cat [Lit (js "<a"); Star true not_gt; Chr (cu ">");
            Group 1 (Star false Any); Lit (js "</a>")];
     re_flags := flag_is |}.

(** [/class=Qresult__snippetQ[^>]*>([\s\S]*?)<\/div>/i] *)
Definition re_snippet : regexp :=
  {| pattern :=
       Cat [Lit (js "class="); Chr dq; Lit (js "result__snippet"); Chr dq;
            Star true not_gt; Chr (cu ">");
            Group 1 (Star false (Class false [CSpace; CNotSpace]));
            Lit (js "</div>")];
     re_flags := flag_i |}.

(** [/<\/?[^>]+(>|$)/g] *)
Definition re_tag : regexp :=
  {| pattern :=
       Cat [Chr (cu "<"); Opt true (Chr (cu "/")); Plus true not_gt;
            Group 1 (Alt (Chr (cu ">")) Eol)];
     re_flags := no_flags |}.

(** ['<div class=Qresult'] *)
Definition result_container : jsstring :=
  js "<div class=" ++ [dq] ++ js "result".

(** [x.replace(/<\/?[^>]+(>|$)/g, empty).trim()] *)
Definition strip_tags (x : jsstring) : jsstring :=
  trim (replace_all re_tag [] x).

(** The three matches of one round of the loop. *)
Definition hrefMatch (part : jsstring) : option match_result :=
  or_else (str_match re_href_result part) (str_match re_href_any part).

Definition titleMatch (part : jsstring) : option match_result :=
  or_else (str_match re_title_result part) (str_match re_title_any part).

Definition snippetMatch (part : jsstring) : option match_result :=
  str_match re_snippet part.

(** One round of the loop, after the test of [maxResults]: the entry to
    push, if any.  [href] is [None] when it is [null] or [undefined]. *)
Definition scan_part (part : jsstring) : result (option SearchResult) :=
  let href :=
    match hrefMatch part with
    | Some mr => group mr 1
    | None => None
    end in
  title ←
    match titleMatch part with
    | Some mr => x ← receiver (group mr 1); mret (Some (strip_tags x))
    | None => mret None
    end;
  snippet ←
    match snippetMatch part with
    | Some mr => x ← receiver (group mr 1); mret (strip_tags x)
    | None => mret []
    end;
  mret
    (match href with
     | Some h =>
         if truthy h
         then Some {| title := or_string title h; snippet := snippet;
                      link := h |}
         else None
     | None => None
     end).

(** [for (const part of ...) { if (results.length >= maxResults) break; ... }] *)
Fixpoint for_parts (maxResults : nat) (parts : list jsstring)
  (results : list SearchResult) : result (list SearchResult) :=
  match parts with
  | [] => mret results
  | part :: parts' =>
      if maxResults <=? length results then mret results
      else
        entry ← scan_part part;
        for_parts maxResults parts'
          (match entry with
           | Some r => results ++ [r]
           | None => results
           end)
  end.

(** [maxResults] is a number of results: a natural number. *)
Definition duckDuckGoSearch (w : World) (query : jsstring) (maxResults : nat)
  : Async (list SearchResult) :=
  q ← now (safeEncode query);
  let url := js "https://html.duckduckgo.com/html/?q=" ++ q in
  try_catch
    (text ← fetchText w url user_agent;
     let results := [] in
     let parts := JsString.split result_container text in
     now (for_parts maxResults (drop 1 parts) results))
    (fun e =>
       _ ← console_error [VStr (js "DDG search error:"); VStr (err_message e)];
       mret []).

(** [maxResults = 6] when the caller gives none. *)
Definition default_maxResults : nat := 6.

(* ----------------- IP tools ----------------- *)

Definition geo_fields : jsstring :=
  js "?fields=status,message,country,regionName,city,zip,lat,lon,isp,org,query".

Definition ipGeolocation (w : World) (ip : jsstring) : Async value :=
  try_catch
    (q ← now (safeEncode ip);
     res ← fetchJson w (js "http://ip-api.com/json/" ++ q ++ geo_fields)
             no_opts;
     mret res)
    (fun e =>
       mret (VObj [("status"%string, VStr (js "fail"));
                   ("message"%string, VStr (err_message e))])).

Definition rdapLookup (w : World) (kind name : jsstring) : Async value :=
  try_catch
    (let prefix :=
       if bool_decide (kind = js "ip") then js "ip" else js "domain" in
     q ← now (safeEncode name);
     let url := js "https://rdap.org/" ++ prefix ++ js "/" ++ q in
     res ← await (fetch w url user_agent);
     if negb (ok res) then mret VNull
     else await (json res))
    (fun _ => mret VNull).

(** [try { out.K = await call.catch(()=>[]); } catch { out.K = []; }] *)
Definition resolve_into (K : string) (call : result (result value))
  (out : gmap string value) : Async (gmap string value) :=
  try_catch
    (p ← now call;
     v ← await (promise_catch p (fun _ => VArr []));
     mret (<[K := v]> out))
    (fun _ => mret (<[K := VArr []]> out)).

Definition dnsRecords (w : World) (name : jsstring)
  : Async (gmap string value) :=
  let out : gmap string value := ∅ in
  out ← resolve_into "A" (resolve w name (js "A")) out;
  out ← resolve_into "AAAA" (resolve w name (js "AAAA")) out;
  out ← resolve_into "MX" (resolveMx w name) out;
  out ← resolve_into "TXT" (resolveTxt w name) out;
  out ← resolve_into "NS" (resolveNs w name) out;
  out ← resolve_into "CNAME" (resolveCname w name) out;
  mret out.

(* ----------------- Phone helpers ----------------- *)

Record NormalizedPhone : Type :=
  { raw : jsstring; cleaned : jsstring; digits : jsstring; e164 : jsstring }.

(** [/[^\d+]/g] *)
Definition re_not_digit_plus : regexp :=
  {| pattern := Class true [CDigit; CChar (cu "+")]; re_flags := no_flags |}.

(** [/^(\+)+/] *)
Definition re_leading_plus : regexp :=
  {| pattern := Seq Bol (Plus true (Group 1 (Chr (cu "+"))));
     re_flags := no_flags |}.

(** [/\D/g] *)
Definition re_not_digit : regexp :=
  {| pattern := Class false [CNotDigit]; re_flags := no_flags |}.

(** [null] is [None]. *)
Definition normalizePhone (raw : jsstring) : option NormalizedPhone :=
  if negb (truthy raw) then None
  else
    let s := trim raw in
    let s := replace_all re_not_digit_plus [] s in
    let s := replace_first re_leading_plus (js "+") s in
    let s := if startsWith (js "00") s then js "+" ++ slice 2 s else s in
    let digits := replace_all re_not_digit [] s in
    let e164 := if startsWith (js "+") s then js "+" ++ digits else digits in
    Some {| raw := raw; cleaned := s; digits := digits; e164 := e164 |}.

(* ----------------- Helpers ----------------- *)

(** [/^[0-9]+\.[0-9]+\.[0-9]+\.[0-9]+$/] *)
Definition re_dotted_quad : regexp :=
  let group := Plus true (Class false [CRange (cu "0") (cu "9")]) in
  let dot := Chr (cu ".") in
  {| pattern := Cat [Bol; group; dot; group; dot; group; dot; group; Eol];
     re_flags := no_flags |}.

Definition looksLikeIP (q : jsstring) : bool :=
  test re_dotted_quad q || includes (js ":") q.

End Osint.
Export Osint.

(** ** Notions the statements use *)

Module Spec.

(** [y] is [x] further on in the same input. *)
Definition later (x y : mstate) : Prop :=
  pos x <= pos y /\ pos y + length (rest y) = pos x + length (rest x).

(** A matcher that calls its continuation further on only. *)
Definition local {R : Type}
  (f : mstate -> (mstate -> option R) -> option R) : Prop :=
  forall x k1 k2, (forall y, later x y -> k1 y = k2 y) -> f x k1 = f x k2.

(** A matcher whose success is an answer of its continuation, at a
    state with the captures of the start when [keeps] holds. *)
Definition reaches {R : Type} (keeps : bool)
  (f : mstate -> (mstate -> option R) -> option R) : Prop :=
  forall x k z, f x k = Some z ->
    exists y, k y = Some z /\ (keeps = true -> caps y = caps x).

Definition no_groups (r : regex) : bool :=
  match groups r with [] => true | _ :: _ => false end.

(** [sets n r]: every match of [r] leaves the capture [n] defined. *)
Fixpoint sets (n : nat) (r : regex) : bool :=
  match r with
  | Group i _ => Nat.eqb i n
  | Seq a b => sets n b || (sets n a && no_groups b)
  | _ => false
  end.

(** [[0-9]], and one round of [(\+)+] *)
Definition re_digit : regex := Class false [CRange (cu "0") (cu "9")].

Definition plus_round {R : Type}
  : mstate -> (mstate -> option R) -> option R :=
  fun x' =>
    m no_flags (Group 1 (Chr (cu "+"))) (enter (Group 1 (Chr (cu "+"))) x').

(** Strings of decimal digits, and four of them with dots between. *)
Definition all_digits (d : jsstring) : Prop :=
  Forall (fun c => is_digit c = true) d.

Definition decimal_group (g : jsstring) : Prop := g <> [] /\ all_digits g.

Definition dotted_quad (q : jsstring) : Prop :=
  exists a b c d : jsstring,
    decimal_group a /\ decimal_group b /\ decimal_group c /\ decimal_group d
    /\ q = a ++ js "." ++ b ++ js "." ++ c ++ js "." ++ d.

Definition no_digit_ahead (t : jsstring) : Prop :=
  match t with
  | c :: _ => is_digit c = false
  | [] => True
  end.

(** What [normalizePhone] keeps of its input, without regular
    expressions: the digits and the pluses, the leading pluses as one,
    a leading 00 as a plus. *)
Definition is_phone_char (c : N) : bool := is_digit c || is_plus c.

Fixpoint drop_plus (s : jsstring) : jsstring :=
  match s with
  | [] => []
  | c :: t => if is_plus c then drop_plus t else s
  end.

Definition clean (raw : jsstring) : jsstring :=
  let t := List.filter is_phone_char raw in
  let u := if startsWith (js "+") t then js "+" ++ drop_plus t else t in
  if startsWith (js "00") u then js "+" ++ drop 2 u else u.

(** Strings in which every surrogate has its partner: what
    [encodeURIComponent] accepts. *)
Fixpoint well_formed (s : jsstring) : bool :=
  match s with
  | [] => true
  | c :: t =>
      if is_trail c then false
      else if is_lead c then
        match t with
        | d :: t' => is_trail d && well_formed t'
        | [] => false
        end
      else well_formed t
  end.

(** The first capture of a match, if there is one. *)
Definition captured (mo : option match_result) : option jsstring :=
  mr ← mo; group mr 1.

(** The entry a result container gives, if any. *)
Definition entry (part : jsstring) : option SearchResult :=
  match captured (hrefMatch part) with
  | Some h =>
      if truthy h
      then Some {| title :=
                     or_string (strip_tags <$> captured (titleMatch part)) h;
                   snippet :=
                     default [] (strip_tags <$> captured (snippetMatch part));
                   link := h |}
      else None
  | None => None
  end.

(** The result containers of a page: what follows each
    [result_container]. *)
Definition containers (page : jsstring) : list jsstring :=
  drop 1 (JsString.split result_container page).

(** The addresses the adapters ask. *)
Definition search_url (q : jsstring) : jsstring :=
  js "https://html.duckduckgo.com/html/?q=" ++ q.

Definition geo_url (q : jsstring) : jsstring :=
  js "http://ip-api.com/json/" ++ q ++ geo_fields.

Definition rdap_url (kind q : jsstring) : jsstring :=
  js "https://rdap.org/"
  ++ (if bool_decide (kind = js "ip") then js "ip" else js "domain")
  ++ js "/" ++ q.

(** [{ status: fail, message: e.message }] *)
Definition fail_record (e : JsError) : value :=
  VObj [("status"%string, VStr (js "fail"));
        ("message"%string, VStr (err_message e))].

(** The records a resolver call gives: its answer, and none when the
    call throws or its promise is rejected. *)
Definition answer (call : result (result value)) : value :=
  match call with
  | Ok (Ok v) => v
  | Ok (Err _) | Err _ => VArr []
  end.

Definition record_types : gset string :=
  {[ "A"; "AAAA"; "MX"; "TXT"; "NS"; "CNAME" ]}%string.

End Spec.
Export Spec.

(** ** Worlds and inputs to run the program on *)

Module Samples.

Definition unreachable : JsError :=
  {| err_name := "TypeError"; err_message := js "fetch failed" |}.

Definition not_found : JsError :=
  {| err_name := "Error"; err_message := js "queryMx ENODATA" |}.

Definition not_json : JsError :=
  {| err_name := "SyntaxError"; err_message := js "Unexpected token <" |}.

(** No network at all. *)
Definition offline : World :=
  {| fetch := fun _ _ => Err unreachable;
     resolve := fun _ _ => Ok (Err unreachable);
     resolveMx := fun _ => Ok (Err unreachable);
     resolveTxt := fun _ => Ok (Err unreachable);
     resolveNs := fun _ => Ok (Err unreachable);
     resolveCname := fun _ => Ok (Err unreachable) |}.

(** A server that answers every request with one page. *)
Definition serving (code : Z) (page : jsstring) (body : result value)
  : World :=
  {| fetch := fun _ _ => Ok {| status := code; text := Ok page; json := body |};
     resolve := fun _ _ => Ok (Err unreachable);
     resolveMx := fun _ => Ok (Err unreachable);
     resolveTxt := fun _ => Ok (Err unreachable);
     resolveNs := fun _ => Ok (Err unreachable);
     resolveCname := fun _ => Ok (Err unreachable) |}.

(** A resolver that knows one address of the name and has no MX record
    for it; it refuses a CNAME query with a thrown error. *)
Definition no_mx : World :=
  {| fetch := fun _ _ => Err unreachable;
     resolve := fun _ rrtype =>
       if bool_decide (rrtype = js "A")
       then Ok (Ok (VArr [VStr (js "93.184.216.34")]))
       else Ok (Ok (VArr []));
     resolveMx := fun _ => Ok (Err not_found);
     resolveTxt := fun _ => Ok (Ok (VArr []));
     resolveNs := fun _ => Ok (Ok (VArr [VStr (js "a.iana-servers.net")]));
     resolveCname := fun _ => Err not_found |}.

(** Two result containers with an anchor each: the first as the search
    engine writes them, the second with a bare anchor and no title. *)
Definition two_results : jsstring :=
  js "<html><div class=" ++ [dq] ++ js "result results_links" ++ [dq]
  ++ js "><h2><a rel=" ++ [dq] ++ js "nofollow" ++ [dq]
  ++ js " class=" ++ [dq] ++ js "result__a" ++ [dq]
  ++ js " href=" ++ [dq] ++ js "//duckduckgo.com/l/?uddg=x" ++ [dq]
  ++ js ">Some <b>Title</b></a></h2><a class=" ++ [dq]
  ++ js "result__snippet" ++ [dq] ++ js " href=" ++ [dq] ++ js "y" ++ [dq]
  ++ js ">snip <b>pet</b></a></div></div>"
  ++ js "<div class=" ++ [dq] ++ js "result" ++ [dq]
  ++ js "><A HREF=" ++ [dq] ++ js "http://b" ++ [dq] ++ js "></A> </div>".

Definition first_result : SearchResult :=
  {| title := js "Some Title"; snippet := js "snip pet";
     link := js "//duckduckgo.com/l/?uddg=x" |}.

Definition second_result : SearchResult :=
  {| title := js "http://b"; snippet := []; link := js "http://b" |}.

(** An unpaired high surrogate, as in the literal '\uD800'. *)
Definition lone_surrogate : jsstring := [55296%N].

End Samples.
Export Samples.

(** ** Notions of the further properties *)

Module More.

(** The characters a query may hold in an address as they are: the
    unreserved ones and the percent sign. *)
Definition url_safe (c : N) : bool := unreserved c || (c =? 37)%N.

(** A code unit has sixteen bits. *)
Definition code_unit (c : N) : Prop := (c < 65536)%N.

(** [encodes s q]: [q] is [s] with every code point that is not an
    unreserved character replaced by the escapes of its UTF-8 octets. *)
Inductive encodes : jsstring -> jsstring -> Prop :=
| encodes_nil : encodes [] []
| encodes_plain c t q :
    unreserved c = true -> encodes t q -> encodes (c :: t) (c :: q)
| encodes_escape c t q :
    unreserved c = false -> is_trail c = false -> is_lead c = false ->
    encodes t q -> encodes (c :: t) (escape c ++ q)
| encodes_pair c d t q :
    unreserved c = false -> is_trail c = false -> is_lead c = true ->
    is_trail d = true -> encodes t q ->
    encodes (c :: d :: t)
      (escape ((c - 55296) * 1024 + (d - 56320) + 65536)%N ++ q).

(** Strings without white space at either end. *)
Definition no_space_ahead (s : jsstring) : Prop :=
  match s with
  | c :: _ => is_white_space c = false
  | [] => True
  end.

Definition trimmed (s : jsstring) : Prop :=
  no_space_ahead s /\ no_space_ahead (rev s).

(** [captures_run n p r]: every match of [r] leaves in the capture [n] what
    a group [(p+)] of [r] matched. *)
Fixpoint captures_run (n : nat) (p : regex) (r : regex) : Prop :=
  match r with
  | Group i r' => i = n /\ r' = Plus true p
  | Seq a b => captures_run n p b \/ (captures_run n p a /\ no_groups b = true)
  | _ => False
  end.

End More.
Export More.

(** * Facts *)

(** ** Strings *)

Section Strings.
Implicit Types (c : N) (s q : jsstring) (p : N -> bool).

Lemma startsWith_one (c : N) (s : jsstring) :
startsWith [c] s = match s with d :: _ => (c =? d)%N | [] => false end.
Proof. destruct s as [|d t]; simpl; [done|]. by rewrite andb_true_r. Qed.

Lemma includes_elem (c : N) (q : jsstring) : In c q -> includes [c] q = true.
Proof.
induction q as [|d t IH]; intros Hin; [destruct Hin|].
cbn [includes]. rewrite startsWith_one.
destruct Hin as [->|Hin].
- by rewrite N.eqb_refl.
- rewrite IH by done. apply orb_true_r.
Qed.

Lemma includes_inv (c : N) (q : jsstring) : includes [c] q = true -> In c q.
Proof.
  induction q as [|d t IH]; [done|].
  cbn [includes]. rewrite startsWith_one.
  intros [->%N.eqb_eq|H]%orb_true_iff; [by left|]. right. by apply IH.
Qed.

Lemma phone_char_not_space c : is_phone_char c = true -> is_white_space c = false.
Proof.
unfold is_phone_char, is_digit, is_plus, in_range. intros H.
apply not_true_is_false. unfold is_white_space, in_range.
rewrite !orb_true_iff, !andb_true_iff, !N.leb_le, !N.eqb_eq in *. lia.
Qed.

Lemma digit_not_plus c : is_digit c = true -> is_plus c = false.
Proof.
unfold is_digit, is_plus, in_range. intros H. apply not_true_is_false.
rewrite andb_true_iff, !N.leb_le in H. rewrite N.eqb_eq. lia.
Qed.

Lemma filter_trimStart (p : N -> bool) (s : jsstring) :
(forall c, p c = true -> is_white_space c = false) ->
List.filter p (trimStart s) = List.filter p s.
Proof.
intros Hp. induction s as [|c t IH]; [done|].
cbn [trimStart]. destruct (is_white_space c) eqn:Hc; [|done].
cbn [List.filter]. destruct (p c) eqn:Hpc; [|done].
apply Hp in Hpc. congruence.
Qed.

Lemma filter_trim (p : N -> bool) (s : jsstring) :
(forall c, p c = true -> is_white_space c = false) ->
List.filter p (trim s) = List.filter p s.
Proof.
intros Hp. unfold trim, trimEnd.
rewrite List.filter_rev, filter_trimStart, <- List.filter_rev, rev_involutive by done.
by apply filter_trimStart.
Qed.

Lemma filter_id (p : N -> bool) (d : jsstring) :
Forall (fun c => p c = true) d -> List.filter p d = d.
Proof.
induction 1 as [|c d Hc _ IH]; [done|]. cbn. by rewrite Hc, IH.
Qed.

End Strings.

(** ** Encoding *)

Lemma unreserved_no_surrogate c :
  unreserved c = true -> is_lead c = false /\ is_trail c = false.
Proof.
  unfold unreserved, is_lead, is_trail, in_range. cbn [existsb].
  rewrite !orb_true_iff, !andb_true_iff, !N.leb_le, !N.eqb_eq.
  intros H. split; apply not_true_is_false;
    rewrite andb_true_iff, !N.leb_le; lia.
Qed.

Lemma safeEncode_well_formed (s : jsstring) :
  (exists q, safeEncode s = Ok q) <-> well_formed s = true.
Proof.
  unfold safeEncode.
  induction s as [s IH] using (induction_ltof1 _ (@length N)).
  unfold ltof in IH. destruct s as [|c t]; [by split; [|exists []]|].
  cbn [encodeURIComponent well_formed].
  destruct (unreserved c) eqn:Hu.
  - destruct (unreserved_no_surrogate c Hu) as [-> ->].
    rewrite <- (IH t) by (cbn; lia).
    split; intros [q Hq].
    + destruct (encodeURIComponent t); [by eexists|done].
    + rewrite Hq. by eexists.
  - destruct (is_trail c); [by split; [intros [q ?]|]|].
    destruct (is_lead c).
    + destruct t as [|d t']; [by split; [intros [q ?]|]|].
      destruct (is_trail d); [|by split; [intros [q ?]|]].
      cbn [andb]. rewrite <- (IH t') by (cbn; lia).
      split; intros [q Hq].
      * destruct (encodeURIComponent t'); [by eexists|done].
      * rewrite Hq. by eexists.
    + rewrite <- (IH t) by (cbn; lia).
      split; intros [q Hq].
      * destruct (encodeURIComponent t); [by eexists|done].
      * rewrite Hq. by eexists.
Qed.

(** ** The matcher *)

Section Fuel.
Context {R : Type}.
Implicit Types (k : mstate -> option R) (x y : mstate).

Lemma later_refl x : later x x.
Proof. by split. Qed.

Lemma later_trans x y z : later x y -> later y z -> later x z.
Proof. unfold later. lia. Qed.

Lemma one_char_local p : local (R := R) (one_char p).
Proof.
  intros [i s cs] k1 k2 Hk. unfold one_char. cbn [rest].
  destruct s as [|c t]; [done|]. destruct (p c); [|done].
  apply Hk. unfold later, advance. cbn. lia.
Qed.

Lemma rounds_local body greedy fuel :
  local body ->
  forall x k1 k2, (forall y, later x y -> k1 y = k2 y) ->
    rounds body greedy k1 fuel x = rounds body greedy k2 fuel x.
Proof.
  intros Hbody. induction fuel as [|fuel IH]; intros x k1 k2 Hk; [done|].
  cbn [rounds]. rewrite (Hk x (later_refl x)).
  rewrite (Hbody x (moved x (rounds body greedy k1 fuel))
             (moved x (rounds body greedy k2 fuel))); [done|].
  intros y Hy. unfold moved. destruct (pos y =? pos x); [done|].
  apply IH. intros y' Hy'. apply Hk. by eapply later_trans.
Qed.

Lemma m_local fl r : local (R := R) (m fl r).
Proof.
  induction r as [|a| |neg items|a IHa b IHb|a IHa b IHb|g r IH|g r IH
                 |n r IH| |]; intros x k1 k2 Hk; cbn [m].
  - apply Hk, later_refl.
  - by apply one_char_local.
  - by apply one_char_local.
  - by apply one_char_local.
  - apply IHa. intros y Hy. apply IHb. intros y' Hy'.
    apply Hk. by eapply later_trans.
  - by rewrite (IHa x k1 k2), (IHb x k1 k2).
  - apply rounds_local; [|done].
    intros x' k1' k2' Hk'. apply IH. intros y Hy. apply Hk'. exact Hy.
  - rewrite (Hk x (later_refl x)).
    rewrite (IH (enter r x) (moved x k1) (moved x k2)); [done|].
    intros y Hy. unfold moved. destruct (pos y =? pos x); [done|].
    apply Hk. exact Hy.
  - apply IH. intros y Hy. by apply Hk.
  - destruct (pos x =? 0); [|done]. apply Hk, later_refl.
  - destruct (rest x); [|done]. apply Hk, later_refl.
Qed.

(** Fuel beyond the length of the input left is never used. *)
Lemma rounds_fuel body greedy k :
  local body ->
  forall fuel1 fuel2 x,
    length (rest x) < fuel1 -> length (rest x) < fuel2 ->
    rounds body greedy k fuel1 x = rounds body greedy k fuel2 x.
Proof.
  intros Hbody. induction fuel1 as [|fuel1 IH]; intros fuel2 x H1 H2; [lia|].
  destruct fuel2 as [|fuel2]; [lia|]. cbn [rounds].
  rewrite (Hbody x (moved x (rounds body greedy k fuel1))
             (moved x (rounds body greedy k fuel2))); [done|].
  intros y [Hle Heq]. unfold moved.
  destruct (Nat.eqb_spec (pos y) (pos x)); [done|].
  apply IH; lia.
Qed.

Lemma m_star_fuel fl greedy r x k fuel :
  length (rest x) < fuel ->
  m fl (Star greedy r) x k =
  rounds (fun x' => m fl r (enter r x')) greedy k fuel x.
Proof.
  intros Hfuel. cbn [m]. apply rounds_fuel; [|lia|done].
  intros x' k1 k2 Hk. apply m_local. intros y Hy. apply Hk. exact Hy.
Qed.
End Fuel.

Section Reach.
Context {R : Type}.
Implicit Types (k : mstate -> option R) (x y : mstate) (z : R).

Lemma or_else_Some (a b : option R) z :
  or_else a b = Some z -> a = Some z \/ b = Some z.
Proof. destruct a; cbn; auto. Qed.

Lemma one_char_reaches p : reaches (R := R) true (one_char p).
Proof.
  intros [i s cs] k z. unfold one_char. cbn.
  destruct s as [|c t]; [done|]. destruct (p c); [|done].
  intros H. eexists. split; [exact H|done].
Qed.

Lemma moved_Some x k y z : moved x k y = Some z -> k y = Some z.
Proof. unfold moved. by destruct (pos y =? pos x). Qed.

Lemma rounds_reaches keeps body greedy k fuel :
  reaches keeps body ->
  forall x z, rounds body greedy k fuel x = Some z ->
    exists y, k y = Some z /\ (keeps = true -> caps y = caps x).
Proof.
  intros Hbody. induction fuel as [|fuel IH]; intros x z; [done|].
  cbn [rounds]. intros H.
  assert (body x (moved x (rounds body greedy k fuel)) = Some z
          \/ k x = Some z) as [Hagain|Hk]
    by (destruct greedy; apply or_else_Some in H; tauto).
  - apply Hbody in Hagain as (y1 & Hy1 & Hc1).
    apply moved_Some, IH in Hy1 as (y & Hy & Hc).
    exists y. split; [done|]. intros Hkeeps. by rewrite Hc, Hc1.
  - by exists x.
Qed.

Lemma enter_no_groups r x : no_groups r = true -> caps (enter r x) = caps x.
Proof. unfold no_groups, enter. by destruct (groups r). Qed.

Lemma no_groups_app (a b : regex) :
  match groups a ++ groups b with [] => true | _ :: _ => false end = true ->
  no_groups a = true /\ no_groups b = true.
Proof. unfold no_groups. by destruct (groups a), (groups b). Qed.

Lemma m_reaches fl r : reaches (R := R) (no_groups r) (m fl r).
Proof.
  induction r as [|a| |neg items|a IHa b IHb|a IHa b IHb|g r IH|g r IH
                 |n r IH| |]; intros x k z; cbn [m].
  - intros H. by exists x.
  - apply one_char_reaches.
  - apply one_char_reaches.
  - apply one_char_reaches.
  - intros H. apply IHa in H as (y1 & H & Hc1).
    apply IHb in H as (y & H & Hc). exists y. split; [done|].
    unfold no_groups. cbn [groups]. intros Hng.
    apply no_groups_app in Hng as [Ha Hb]. by rewrite Hc, Hc1.
  - intros H. unfold no_groups. cbn [groups].
    apply or_else_Some in H as [H|H].
    + apply IHa in H as (y & H & Hc). exists y. split; [done|].
      intros Hng. apply no_groups_app in Hng as [Ha Hb]. auto.
    + apply IHb in H as (y & H & Hc). exists y. split; [done|].
      intros Hng. apply no_groups_app in Hng as [Ha Hb]. auto.
  - apply (rounds_reaches (no_groups r)).
    intros x' k' z' H. apply IH in H as (y & H & Hc).
    exists y. split; [done|]. intros Hng.
    by rewrite Hc, enter_no_groups.
  - intros H.
    assert (m fl r (enter r x) (moved x k) = Some z \/ k x = Some z)
      as [Honce|Hk] by (destruct g; apply or_else_Some in H; tauto).
    + apply IH in Honce as (y & Hy & Hc). apply moved_Some in Hy.
      exists y. split; [done|]. intros Hng.
      by rewrite Hc, enter_no_groups.
    + by exists x.
  - intros H. apply IH in H as (y & H & _).
    eexists. split; [exact H|done].
  - destruct (pos x =? 0); [|done]. intros H. by exists x.
  - destruct (rest x); [|done]. intros H. by exists x.
Qed.

Lemma cap_get_set n s cs : cap_get n (cap_set n s cs) = Some s.
Proof. unfold cap_set. cbn. by rewrite Nat.eqb_refl. Qed.

Lemma m_sets fl n r :
  sets n r = true ->
  forall x k z, m fl r x k = Some z ->
    exists y, k y = Some z /\ is_Some (cap_get n (caps y)).
Proof.
  induction r as [|a| |neg items|a IHa b IHb|a IHa b IHb|g r IH|g r IH
                 |i r IH| |]; cbn [sets]; try done.
  - intros Hs x k z. cbn [m]. intros H.
    apply orb_true_iff in Hs as [Hb|[Ha Hng]%andb_true_iff].
    + apply m_reaches in H as (y1 & H & _). by apply (IHb Hb) in H.
    + apply (IHa Ha) in H as (y1 & H & Hset).
      apply m_reaches in H as (y & H & Hc).
      exists y. split; [done|]. by rewrite Hc.
  - intros ->%Nat.eqb_eq x k z. cbn [m]. intros H.
    apply m_reaches in H as (y & H & _).
    eexists. split; [exact H|]. cbn [caps]. by rewrite cap_get_set.
Qed.
End Reach.

Lemma exec_from_sets re n : sets (S n) (pattern re) = true ->
  forall i (s : jsstring) mr,
    exec_from re i s = Some mr -> is_Some (group mr (S n)).
Proof.
  intros Hs i s. revert i. induction s as [|c t IH]; intros i mr; cbn [exec_from].
  - destruct (match_at re i []) as [y|] eqn:Hy; [|done].
    intros [= <-]. cbn [group m_groups].
    apply (m_sets _ _ _ Hs) in Hy as (y' & [= ->] & Hset). done.
  - destruct (match_at re i (c :: t)) as [y|] eqn:Hy.
    + intros [= <-]. cbn [group m_groups].
      apply (m_sets _ _ _ Hs) in Hy as (y' & [= ->] & Hset). done.
    + apply IH.
Qed.

Lemma str_match_group re (s : jsstring) mr :
  sets 1 (pattern re) = true ->
  str_match re s = Some mr -> exists x, group mr 1 = Some x.
Proof. intros Hs H. by apply (exec_from_sets re 0 Hs) in H as [x Hx]; eauto. Qed.

(** One character class, replaced everywhere. *)

Lemma match_at_class fl neg items i (s : jsstring) :
  match_at {| pattern := Class neg items; re_flags := fl |} i s =
  match s with
  | c :: t => if class_mem fl neg items c
              then Some {| pos := S i; rest := t; caps := [] |} else None
  | [] => None
  end.
Proof. by destruct s. Qed.

Lemma replace_go_class fl neg items i (s : jsstring) :
  replace_go {| pattern := Class neg items; re_flags := fl |} [] i 0 s =
  List.filter (fun c => negb (class_mem fl neg items c)) s.
Proof.
  revert i. induction s as [|c t IH]; intros i.
  - done.
  - cbn [replace_go List.filter]. rewrite match_at_class.
    destruct (class_mem fl neg items c); cbn [negb pos].
    + replace (S i - i) with 1 by lia. cbn. apply IH.
    + cbn. f_equal. apply IH.
Qed.

Section Matcher.
Context {R : Type}.
Implicit Types (k : mstate -> option R) (x : mstate).

Lemma m_seq fl a b x k :
  m fl (Seq a b) x k = m fl a x (fun y => m fl b y k).
Proof. reflexivity. Qed.

Lemma m_chr_cons fl a i c t cs k :
  chr_mem fl a c = true ->
  m fl (Chr a) {| pos := i; rest := c :: t; caps := cs |} k =
  k {| pos := S i; rest := t; caps := cs |}.
Proof. intros H. cbn. unfold one_char. cbn. by rewrite H. Qed.

Lemma class_digit c : class_mem no_flags false [CRange (cu "0") (cu "9")] c = is_digit c.
Proof.
  unfold class_mem, item_mem. cbn.
  by rewrite !orb_false_r.
Qed.

Lemma m_digit_cons i c t cs k :
  m no_flags re_digit {| pos := i; rest := c :: t; caps := cs |} k =
  if is_digit c then k {| pos := S i; rest := t; caps := cs |} else None.
Proof. cbn [m re_digit]. unfold one_char. cbn [rest]. by rewrite class_digit. Qed.

Lemma round_digit_cons i c t cs k :
  m no_flags re_digit (enter re_digit {| pos := i; rest := c :: t; caps := cs |}) k =
  if is_digit c then k {| pos := S i; rest := t; caps := cs |} else None.
Proof. apply m_digit_cons. Qed.

Lemma round_digit_nil i cs k :
  m no_flags re_digit (enter re_digit {| pos := i; rest := []; caps := cs |}) k
  = None.
Proof. reflexivity. Qed.

Lemma rounds_digits g : forall t fuel i cs k z,
  Forall (fun c => is_digit c = true) g ->
  no_digit_ahead t ->
  length (g ++ t) < fuel ->
  k {| pos := i + length g; rest := t; caps := cs |} = Some z ->
  rounds (fun x' => m no_flags re_digit (enter re_digit x')) true k fuel
    {| pos := i; rest := g ++ t; caps := cs |} = Some z.
Proof.
  induction g as [|c g IH]; intros t fuel i cs k z Hg Ht Hfuel Hk;
    (destruct fuel as [|fuel]; [lia|]); cbn [rounds app].
  - rewrite Nat.add_0_r in Hk. cbn [length] in Hk. rewrite Hk.
    destruct t as [|c t]; [by rewrite round_digit_nil|].
    rewrite round_digit_cons. cbn in Ht. by rewrite Ht.
  - rewrite round_digit_cons.
    apply Forall_cons in Hg as [-> Hg].
    unfold moved at 1. cbn [pos].
    replace (S i =? i) with false by (symmetry; apply Nat.eqb_neq; lia).
    rewrite (IH t fuel (S i) cs k z); [done|done|done| |].
    + cbn in Hfuel. lia.
    + rewrite <- Hk. f_equal. cbn. f_equal. lia.
Qed.

Lemma m_plus_digits g t i cs k z :
  decimal_group g ->
  no_digit_ahead t ->
  k {| pos := i + length g; rest := t; caps := cs |} = Some z ->
  m no_flags (Plus true re_digit) {| pos := i; rest := g ++ t; caps := cs |} k
  = Some z.
Proof.
  intros [Hne Hg] Ht Hk. destruct g as [|c g]; [done|].
  apply Forall_cons in Hg as [Hc Hg].
  unfold Plus. rewrite m_seq. cbn [app]. rewrite m_digit_cons, Hc.
  change (m no_flags (Star true re_digit) ?x k) with
    (rounds (fun x' => m no_flags re_digit (enter re_digit x')) true k
       (S (length (rest x))) x).
  cbn [rest]. apply rounds_digits; [done|done|lia|].
  rewrite <- Hk. f_equal. cbn. f_equal. lia.
Qed.
End Matcher.

Lemma test_match_at re (s : jsstring) y :
  match_at re 0 s = Some y -> test re s = true.
Proof. intros H. unfold test. destruct s; cbn [exec_from]; by rewrite H. Qed.

Lemma dotted_quad_test (q : jsstring) : dotted_quad q -> test re_dotted_quad q = true.
Proof.
  intros (a & b & c & d & Ha & Hb & Hc & Hd & ->).
  replace (c ++ js "." ++ d) with (c ++ js "." ++ d ++ [])
    by (by rewrite app_nil_r).
  eapply test_match_at.
  unfold match_at, re_dotted_quad. cbn [pattern re_flags Cat].
  change (Class false [CRange (cu "0") (cu "9")]) with re_digit.
  rewrite m_seq.
  change (m ?fl Bol ?x ?k) with (k x). cbn beta.
  do 3 (rewrite m_seq; apply m_plus_digits; [done|done|];
        rewrite m_seq; change (js "." ++ ?t) with (cu "." :: t);
        rewrite m_chr_cons by done).
  rewrite m_seq. apply m_plus_digits; [done|done|].
  reflexivity.
Qed.

Lemma rounds_plus fuel : forall x : mstate,
  length (rest x) < fuel ->
  exists y n, rounds plus_round true Some fuel x = Some y
    /\ pos y = pos x + n /\ rest y = drop n (rest x)
    /\ rest y = drop_plus (rest x).
Proof.
  induction fuel as [|fuel IH]; intros [i s cs] Hlt; [lia|].
  cbn [rounds]. unfold plus_round at 1.
  cbn [m]. unfold one_char, enter, advance. cbn [pos rest caps groups foldr] in *.
  destruct s as [|c t].
  - cbn. exists {| pos := i; rest := []; caps := cs |}, 0. cbn. auto with lia.
  - unfold chr_mem. cbn [ignoreCase no_flags andb orb].
        rewrite orb_false_r.
    destruct (N.eqb_spec (cu "+") c) as [<-|Hne].
    + unfold moved at 1. cbn [pos rest caps].
      replace (S i =? i) with false by (symmetry; apply Nat.eqb_neq; lia).
      match goal with
      | |- context [rounds _ _ _ fuel ?y0] =>
          destruct (IH y0) as (y & n & -> & Hp & Hr & Hd); [cbn in *; lia|]
      end.
      cbn in *. exists y, (S n). cbn. split_and!; auto with lia.
    + cbn. exists {| pos := i; rest := c :: t; caps := cs |}, 0. cbn.
      split_and!; auto with lia.
      unfold is_plus. destruct (N.eqb_spec c 43); [|done].
      subst. by destruct Hne.
Qed.

Lemma exec_from_bol r fl i (s : jsstring) :
  0 < i -> exec_from {| pattern := Seq Bol r; re_flags := fl |} i s = None.
Proof.
  revert i. induction s as [|c t IH]; intros i Hi; cbn [exec_from];
    unfold match_at; cbn [m pattern re_flags pos];
    (replace (i =? 0) with false by (symmetry; apply Nat.eqb_neq; lia)).
  - done.
  - apply IH. lia.
Qed.

Lemma match_at_leading_plus (s : jsstring) :
  match_at re_leading_plus 0 s =
  one_char (chr_mem no_flags (cu "+")) {| pos := 0; rest := s; caps := [] |}
    (fun y =>
       let y' := {| pos := pos y; rest := rest y;
                    caps := cap_set 1 (take (pos y - 0) s) (caps y) |} in
       rounds plus_round true Some (S (length (rest y'))) y').
Proof. reflexivity. Qed.

Lemma replace_leading_plus (s : jsstring) :
  replace_first re_leading_plus (js "+") s =
  if startsWith (js "+") s then js "+" ++ drop_plus s else s.
Proof.
  unfold replace_first.
  destruct s as [|c t]; [reflexivity|].
  cbn [exec_from]. rewrite match_at_leading_plus.
  unfold one_char, advance, chr_mem. cbn [pos rest caps ignoreCase no_flags andb].
  rewrite orb_false_r.
  change (js "+") with [cu "+"]. rewrite startsWith_one.
  destruct (N.eqb_spec (cu "+") c) as [<-|Hne].
  - match goal with
    | |- context [rounds _ _ _ ?f ?y0] =>
        destruct (rounds_plus f y0) as (y & n & -> & Hp & Hr & Hd); [cbn; lia|]
    end.
    cbn [pos rest caps m_start m_stop take] in *. rewrite Hp.
    cbn [drop Nat.add]. rewrite <- Hr, Hd. cbn. done.
  - unfold re_leading_plus. by rewrite exec_from_bol by lia.
Qed.

(** What a match of the dotted quad tells of the string. *)

Section Sound.
Context {R : Type}.
Implicit Types (k : mstate -> option R) (x : mstate).

Lemma rounds_digits_inv fuel : forall i s cs k z,
  rounds (fun x' => m no_flags re_digit (enter re_digit x')) true k fuel
    {| pos := i; rest := s; caps := cs |} = Some z ->
  exists g t, s = g ++ t /\ all_digits g
    /\ k {| pos := i + length g; rest := t; caps := cs |} = Some z.
Proof.
  induction fuel as [|fuel IH]; intros i s cs k z; [done|].
  cbn [rounds]. intros [H|H]%or_else_Some.
  - destruct s as [|c s]; [by rewrite round_digit_nil in H|].
    rewrite round_digit_cons in H.
    destruct (is_digit c) eqn:Hc; [|done].
    apply moved_Some, IH in H as (g & t & -> & Hg & Hk).
    exists (c :: g), t. split; [done|]. split; [by constructor|].
    rewrite <- Hk. f_equal. cbn. f_equal. lia.
  - exists [], s. split; [done|]. split; [constructor|].
    rewrite <- H. f_equal. cbn. f_equal. lia.
Qed.

Lemma m_plus_digits_inv i s cs k z :
  m no_flags (Plus true re_digit) {| pos := i; rest := s; caps := cs |} k
  = Some z ->
  exists g t, s = g ++ t /\ decimal_group g
    /\ k {| pos := i + length g; rest := t; caps := cs |} = Some z.
Proof.
  unfold Plus. rewrite m_seq. intros H.
  destruct s as [|c s]; [done|]. rewrite m_digit_cons in H.
  destruct (is_digit c) eqn:Hc; [|done].
  change (m no_flags (Star true re_digit) ?x k) with
    (rounds (fun x' => m no_flags re_digit (enter re_digit x')) true k
       (S (length (rest x))) x) in H.
  apply rounds_digits_inv in H as (g & t & -> & Hg & Hk).
  exists (c :: g), t. split; [done|]. split; [by split; [|constructor]|].
  rewrite <- Hk. f_equal. cbn. f_equal. lia.
Qed.

Lemma m_chr_inv a i s cs k z :
  m no_flags (Chr a) {| pos := i; rest := s; caps := cs |} k = Some z ->
  exists t, s = a :: t /\ k {| pos := S i; rest := t; caps := cs |} = Some z.
Proof.
  cbn [m]. unfold one_char, chr_mem. cbn [rest ignoreCase no_flags andb].
  destruct s as [|c t]; [done|]. rewrite orb_false_r.
  destruct (N.eqb_spec a c) as [->|]; [|done]. intros H. by exists t.
Qed.
End Sound.

Lemma dotted_quad_test_inv (q : jsstring) :
test re_dotted_quad q = true -> dotted_quad q.
Proof.
unfold test. intros H.
assert (exists y, match_at re_dotted_quad 0 q = Some y) as [y Hy].
{ destruct q as [|c t]; cbn [exec_from] in H.
  - destruct (match_at re_dotted_quad 0 []); [by eexists|done].
  - destruct (match_at re_dotted_quad 0 (c :: t)); [by eexists|].
    unfold re_dotted_quad in H. cbn [pattern re_flags Cat] in H.
    by rewrite exec_from_bol in H by lia. }
clear H. unfold match_at, re_dotted_quad in Hy.
cbn [pattern re_flags Cat] in Hy.
change (Class false [CRange (cu "0") (cu "9")]) with re_digit in Hy.
rewrite m_seq in Hy. change (m ?fl Bol ?x ?k) with (k x) in Hy. cbn beta in Hy.
rewrite m_seq in Hy.
apply m_plus_digits_inv in Hy as (a & ta & -> & Ha & Hy).
rewrite m_seq in Hy. apply m_chr_inv in Hy as (t1 & -> & Hy).
rewrite m_seq in Hy.
apply m_plus_digits_inv in Hy as (b & tb & -> & Hb & Hy).
rewrite m_seq in Hy. apply m_chr_inv in Hy as (t2 & -> & Hy).
rewrite m_seq in Hy.
apply m_plus_digits_inv in Hy as (c & tc & -> & Hc & Hy).
rewrite m_seq in Hy. apply m_chr_inv in Hy as (t3 & -> & Hy).
rewrite m_seq in Hy.
apply m_plus_digits_inv in Hy as (d & td & -> & Hd & Hy).
cbn [m rest] in Hy. destruct td; [|done].
exists a, b, c, d. by rewrite app_nil_r.
Qed.

(** ** The phone normaliser *)

Lemma replace_not_digit_plus (s : jsstring) :
  replace_all re_not_digit_plus [] s = List.filter is_phone_char s.
Proof.
  unfold replace_all, re_not_digit_plus. rewrite replace_go_class.
  apply List.filter_ext. intros c.
  unfold class_mem, item_mem, is_phone_char, is_plus.
  cbn [existsb item_has ignoreCase no_flags andb].
  change (cu "+") with 43%N. rewrite (N.eqb_sym c 43).
  by destruct (is_digit c), (43 =? c)%N.
Qed.

Lemma replace_not_digit (s : jsstring) :
  replace_all re_not_digit [] s = List.filter is_digit s.
Proof.
  unfold replace_all, re_not_digit. rewrite replace_go_class.
  apply List.filter_ext. intros c.
  unfold class_mem, item_mem.
  cbn [existsb item_has ignoreCase no_flags andb].
  by destruct (is_digit c).
Qed.

Theorem normalizePhone_clean (r0 : jsstring) :
  normalizePhone r0 =
  match r0 with
  | [] => None
  | _ :: _ =>
      let s := clean r0 in
      let d := List.filter is_digit s in
      Some {| raw := r0; cleaned := s; digits := d;
              e164 := if startsWith (js "+") s then js "+" ++ d else d |}
  end.
Proof.
  destruct r0 as [|c t]; [done|].
  unfold normalizePhone. cbn [truthy negb].
  rewrite replace_not_digit_plus, replace_leading_plus.
  rewrite (filter_trim _ _ phone_char_not_space).
  fold (clean (c :: t)). unfold slice. cbv zeta.
  by rewrite replace_not_digit.
Qed.

Lemma filter_all_digits (s : jsstring) : all_digits (List.filter is_digit s).
Proof.
  apply Forall_forall. intros c Hc. apply list_elem_of_In in Hc.
  by apply List.filter_In in Hc as [_ Hc].
Qed.

Lemma all_digits_phone (d : jsstring) :
  all_digits d -> Forall (fun c => is_phone_char c = true) d.
Proof.
  intros Hd. eapply Forall_impl; [exact Hd|].
  intros c Hc. unfold is_phone_char. by rewrite Hc.
Qed.

Lemma all_digits_no_plus (d : jsstring) :
  all_digits d -> startsWith (js "+") d = false.
Proof.
  change (js "+") with [cu "+"]. rewrite startsWith_one.
  destruct 1 as [|c d Hc _]; [done|].
  apply digit_not_plus in Hc. unfold is_plus in Hc.
  by rewrite N.eqb_sym.
Qed.

Lemma all_digits_drop_plus (d : jsstring) : all_digits d -> drop_plus d = d.
Proof.
  destruct 1 as [|c d Hc _]; [done|]. cbn. by rewrite (digit_not_plus c).
Qed.

Lemma clean_digits (d : jsstring) :
  all_digits d -> startsWith (js "00") d = false -> clean d = d.
Proof.
  intros Hd H00. unfold clean.
  rewrite (filter_id _ _ (all_digits_phone _ Hd)).
  cbv zeta. by rewrite (all_digits_no_plus _ Hd), H00.
Qed.

Lemma clean_plus_digits (d : jsstring) :
  all_digits d -> clean (cu "+" :: d) = cu "+" :: d.
Proof.
  intros Hd. unfold clean. cbn [js app List.filter].
  change (is_phone_char (cu "+")) with true. cbv iota.
  rewrite (filter_id _ _ (all_digits_phone _ Hd)).
  cbv zeta. change (startsWith [cu "+"] (cu "+" :: d)) with true. cbv iota.
  cbn [drop_plus]. change (is_plus (cu "+")) with true. cbv iota.
  by rewrite (all_digits_drop_plus _ Hd).
Qed.

Lemma normalizePhone_Some (r0 : jsstring) (r : NormalizedPhone) :
  normalizePhone r0 = Some r ->
  r0 <> [] /\ raw r = r0 /\ cleaned r = clean r0
  /\ digits r = List.filter is_digit (cleaned r)
  /\ e164 r = (if startsWith (js "+") (cleaned r) then js "+" ++ digits r
               else digits r).
Proof.
  rewrite normalizePhone_clean. destruct r0 as [|c0 t0]; [done|].
  cbv zeta. intros Hr. apply (inj Some) in Hr. by subst r.
Qed.

Lemma normalizePhone_all_digits (d : jsstring) :
  all_digits d -> d <> [] -> startsWith (js "00") d = false ->
  normalizePhone d =
    Some {| raw := d; cleaned := d; digits := d; e164 := d |}.
Proof.
  intros Hd Hne H00. rewrite normalizePhone_clean.
  destruct d as [|c d]; [done|]. cbv zeta.
  rewrite (clean_digits _ Hd H00), (all_digits_no_plus _ Hd).
  by rewrite (filter_id _ _ Hd).
Qed.

Lemma normalizePhone_plus_digits (d : jsstring) :
  all_digits d ->
  normalizePhone (js "+" ++ d) =
    Some {| raw := js "+" ++ d; cleaned := js "+" ++ d; digits := d;
            e164 := js "+" ++ d |}.
Proof.
  intros Hd. rewrite normalizePhone_clean.
  change (js "+" ++ d) with (cu "+" :: d). cbv zeta.
  rewrite (clean_plus_digits d Hd).
  change (startsWith (js "+") (cu "+" :: d)) with true. cbv iota.
  cbn [List.filter]. change (is_digit (cu "+")) with false. cbv iota.
  by rewrite (filter_id _ _ Hd).
Qed.

(** ** The scraper *)

Lemma titleMatch_group part mr :
  titleMatch part = Some mr -> exists x, group mr 1 = Some x.
Proof.
  unfold titleMatch. intros H.
  destruct (str_match re_title_result part) as [mr'|] eqn:H1; cbn in H.
  - injection H as ->. by apply (str_match_group re_title_result part).
  - by apply (str_match_group re_title_any part).
Qed.

Lemma snippetMatch_group part mr :
  snippetMatch part = Some mr -> exists x, group mr 1 = Some x.
Proof. unfold snippetMatch. by apply (str_match_group re_snippet part). Qed.

Lemma scan_part_entry part : scan_part part = Ok (entry part).
Proof.
  unfold scan_part, entry, captured.
  destruct (titleMatch part) as [tm|] eqn:Ht;
    [destruct (titleMatch_group _ _ Ht) as [t Hg]|];
    (destruct (snippetMatch part) as [sm|] eqn:Hs;
     [destruct (snippetMatch_group _ _ Hs) as [x Hx]|]);
    cbn [mbind option_bind result_bind receiver mret result_ret fmap
         option_fmap option_map default];
    rewrite ?Hg, ?Hx;
    cbn [mbind option_bind result_bind receiver mret result_ret fmap
         option_fmap option_map default];
    reflexivity.
Qed.

Lemma for_parts_take maxResults parts : forall results,
  length results <= maxResults ->
  for_parts maxResults parts results =
  Ok (results ++ take (maxResults - length results) (omap entry parts)).
Proof.
  induction parts as [|part parts IH]; intros results Hlen; cbn [for_parts].
  - change (omap entry []) with (@nil SearchResult).
    by rewrite take_nil, app_nil_r.
  - change (omap entry (part :: parts)) with
      (match entry part with
       | Some r => r :: omap entry parts
       | None => omap entry parts
       end).
    destruct (Nat.leb_spec maxResults (length results)) as [Hge|Hlt].
    + replace (maxResults - length results) with 0 by lia.
      by rewrite app_nil_r.
    + rewrite scan_part_entry. cbn [mbind result_bind].
      destruct (entry part) as [r|].
      * rewrite IH by (rewrite length_app; cbn; lia).
        rewrite length_app. cbn [length].
        replace (maxResults - length results)
          with (S (maxResults - (length results + 1))) by lia.
        cbn [take]. by rewrite <- app_assoc.
      * by apply IH.
Qed.

Lemma fetchText_run w u opts out :
  fetchText w u opts out =
  (match fetch w u opts with Ok res => text res | Err e => Err e end, out).
Proof. unfold fetchText, mbind, async_bind, await, now. by destruct (fetch w u opts). Qed.

Lemma fetchJson_run w u opts out :
  fetchJson w u opts out =
  (match fetch w u opts with Ok res => json res | Err e => Err e end, out).
Proof. unfold fetchJson, mbind, async_bind, await, now. by destruct (fetch w u opts). Qed.

Lemma duckDuckGoSearch_run w query maxResults out q :
  safeEncode query = Ok q ->
  duckDuckGoSearch w query maxResults out =
  match fetchText w (search_url q) user_agent out with
  | (Ok text, out') =>
      (Ok (take maxResults (omap entry (containers text))), out')
  | (Err e, out') =>
      (Ok [], [VStr (js "DDG search error:"); VStr (err_message e)] :: out')
  end.
Proof.
  intros Hq. unfold duckDuckGoSearch, mbind at 1, async_bind, await, now. rewrite Hq.
  unfold try_catch, mbind at 1, async_bind. fold (search_url q).
  rewrite fetchText_run.
  destruct (match fetch w (search_url q) user_agent with
            | Ok res => text res | Err e => Err e end) as [text|e].
  - unfold now. rewrite for_parts_take by (cbn; lia).
    cbn [length app]. by rewrite Nat.sub_0_r.
  - reflexivity.
Qed.

Lemma duckDuckGoSearch_throws w query maxResults out e :
  safeEncode query = Err e ->
  duckDuckGoSearch w query maxResults out = (Err e, out).
Proof.
  intros Hq. unfold duckDuckGoSearch, mbind at 1, async_bind, await, now.
  by rewrite Hq.
Qed.

(** ** The adapters *)

Lemma ipGeolocation_run w ip out :
  ipGeolocation w ip out =
  (Ok match safeEncode ip with
      | Ok q =>
          match fetchJson w (geo_url q) no_opts out with
          | (Ok body, _) => body
          | (Err e, _) => fail_record e
          end
      | Err e => fail_record e
      end, out).
Proof.
  unfold ipGeolocation, try_catch, mbind at 1, async_bind, await, now.
  destruct (safeEncode ip) as [q|e]; [|done].
  fold (geo_url q). unfold mbind, async_bind. rewrite fetchJson_run.
  by destruct (match fetch w (geo_url q) no_opts with
               | Ok res => json res | Err e => Err e end).
Qed.

Lemma rdapLookup_run w kind name out :
  rdapLookup w kind name out =
  (Ok match safeEncode name with
      | Ok q =>
          match fetch w (rdap_url kind q) user_agent with
          | Ok res =>
              if ok res
              then match json res with Ok body => body | Err _ => VNull end
              else VNull
          | Err _ => VNull
          end
      | Err _ => VNull
      end, out).
Proof.
  unfold rdapLookup, try_catch, mbind, async_bind, await, now.
  destruct (safeEncode name) as [q|e]; [|done].
  fold (rdap_url kind q).
  destruct (fetch w (rdap_url kind q) user_agent) as [res|e]; [|done].
  destruct (ok res); cbn [negb]; [|done].
  by destruct (json res).
Qed.

Lemma resolve_into_run K call (m0 : gmap string value) out :
  resolve_into K call m0 out = (Ok (<[K := answer call]> m0), out).
Proof.
  unfold resolve_into, try_catch, mbind, async_bind, await, now, promise_catch.
  by destruct call as [[v|e]|e].
Qed.

Lemma dnsRecords_run w name out :
  dnsRecords w name out =
  (Ok (<["CNAME" := answer (resolveCname w name)]>
       (<["NS" := answer (resolveNs w name)]>
        (<["TXT" := answer (resolveTxt w name)]>
         (<["MX" := answer (resolveMx w name)]>
          (<["AAAA" := answer (resolve w name (js "AAAA"))]>
           (<["A" := answer (resolve w name (js "A"))]> ∅)))))), out).
Proof.
  unfold dnsRecords, mbind, async_bind.
  by rewrite !resolve_into_run.
Qed.


(** * The properties of the specification *)

(** ** The web-search scraper *)

(** A query that [encodeURIComponent] accepts never makes the scraper
    throw: a failed fetch gives the empty list and a line on the console,
    a fetched page gives the entries of its first containers. *)
Lemma duckDuckGoSearch_encodable w query maxResults out q :
  safeEncode query = Ok q ->
  exists rs out',
    duckDuckGoSearch w query maxResults out = (Ok rs, out')
    /\ (forall e, fetchText w (search_url q) user_agent out = (Err e, out) ->
          rs = [])
    /\ (forall page, fetchText w (search_url q) user_agent out = (Ok page, out) ->
          rs = take maxResults (omap entry (containers page))).
Proof.
  intros Hq. rewrite (duckDuckGoSearch_run _ _ _ _ _ Hq).
  destruct (fetchText w (search_url q) user_agent out) as [[page|e] out'];
    do 2 eexists; (split; [reflexivity|]); split; congruence.
Qed.

(** A page without a result container gives no entry; the empty page is
    one. *)
Lemma containers_none (page : jsstring) :
  includes result_container page = false -> containers page = [].
Proof.
  unfold containers, JsString.split. generalize (@nil N).
  induction page as [|c t IH]; intros acc; [done|].
  cbn [includes split_go]. intros [H1 H2]%orb_false_iff.
  rewrite H1. by apply IH.
Qed.

(** The scraper returns for the queries in which every surrogate has
    its partner, and for no other. *)
Lemma duckDuckGoSearch_returns_iff w query maxResults out :
  (exists rs out', duckDuckGoSearch w query maxResults out = (Ok rs, out'))
  <-> well_formed query = true.
Proof.
  rewrite <- safeEncode_well_formed. split.
  - intros (rs & out' & Hrun).
    destruct (safeEncode query) as [q|e] eqn:Hq; [by eexists|].
    by rewrite (duckDuckGoSearch_throws _ _ _ _ _ Hq) in Hrun.
  - intros [q Hq].
    destruct (duckDuckGoSearch_encodable w query maxResults out q Hq)
      as (rs & out' & Hrun & _).
    by exists rs, out'.
Qed.

(** C1, at the input where it fails: a query that is one unpaired
    surrogate makes [duckDuckGoSearch] throw a URIError, whatever the
    network answers, since the address is built before the [try] block
    is entered. *)
Theorem duckDuckGoSearch_unpaired_surrogate w maxResults out :
  duckDuckGoSearch w lone_surrogate maxResults out = (Err URIError, out).
Proof. by apply duckDuckGoSearch_throws. Qed.

(** C9: a search that returns gives at most [maxResults] entries: the
    first [maxResults] of the entries of the containers of the page, the
    later containers left aside. *)
Theorem duckDuckGoSearch_at_most w query maxResults out rs out' :
  duckDuckGoSearch w query maxResults out = (Ok rs, out') ->
  length rs <= maxResults
  /\ (forall q page, safeEncode query = Ok q ->
        fetchText w (search_url q) user_agent out = (Ok page, out) ->
        rs = take maxResults (omap entry (containers page))).
Proof.
  intros Hrun.
  destruct (safeEncode query) as [q|e] eqn:Hq;
    [|by rewrite (duckDuckGoSearch_throws _ _ _ _ _ Hq) in Hrun].
  rewrite (duckDuckGoSearch_run _ _ _ _ _ Hq) in Hrun.
  destruct (fetchText w (search_url q) user_agent out) as [[page|e] out1] eqn:Hf.
  - injection Hrun as <- <-. split.
    + rewrite length_take. lia.
    + intros q' page' [= <-] H. rewrite Hf in H. by injection H as <- _.
  - injection Hrun as <- <-. split; [cbn; lia|].
    intros q' page' [= <-] H. by rewrite Hf in H.
Qed.

Lemma duckDuckGoSearch_at_most_witness :
  length [first_result] <= 1
  /\ (forall q page, safeEncode (js "some title") = Ok q ->
        fetchText (serving 200 two_results (Err not_json)) (search_url q)
          user_agent [] = (Ok page, []) ->
        [first_result] = take 1 (omap entry (containers page))).
Proof.
  apply (duckDuckGoSearch_at_most (serving 200 two_results (Err not_json))
           (js "some title") 1 [] [first_result] []).
  vm_compute. reflexivity.
Defined.

(** C10: every entry of a search that returns has a link and a title that
    are non-empty strings.  It comes from a container of the page in which
    an href was matched: that is its link; its title is the title matched
    there with the tags stripped, or the link when no title was matched or
    nothing of it is left; its snippet is the snippet matched there with
    the tags stripped, or the empty string. *)
Theorem duckDuckGoSearch_entry_fields w query maxResults out rs out' r :
  duckDuckGoSearch w query maxResults out = (Ok rs, out') ->
  In r rs ->
  link r <> [] /\ title r <> []
  /\ exists q page part,
       safeEncode query = Ok q
       /\ fetchText w (search_url q) user_agent out = (Ok page, out')
       /\ In part (containers page)
       /\ captured (hrefMatch part) = Some (link r)
       /\ title r =
            or_string (strip_tags <$> captured (titleMatch part)) (link r)
       /\ snippet r =
            default [] (strip_tags <$> captured (snippetMatch part)).
Proof.
  intros Hrun Hr.
  destruct (safeEncode query) as [q|e] eqn:Hq;
    [|by rewrite (duckDuckGoSearch_throws _ _ _ _ _ Hq) in Hrun].
  rewrite (duckDuckGoSearch_run _ _ _ _ _ Hq) in Hrun.
  destruct (fetchText w (search_url q) user_agent out) as [[page|e] out1] eqn:Hf;
    injection Hrun as <- <-; [|done].
  apply list_elem_of_In, elem_of_take in Hr as (i & Hr & _).
  apply list_elem_of_lookup_2, list_elem_of_omap in Hr as (part & Hpart & He).
  unfold entry in He.
  destruct (captured (hrefMatch part)) as [h|] eqn:Hh; [|done].
  destruct h as [|c h]; [done|]. cbn [truthy] in He. injection He as <-.
  cbn [link title snippet]. split; [done|]. split.
  - unfold or_string.
    by destruct (strip_tags <$> captured (titleMatch part)) as [[|c' t]|].
  - exists q, page, part. by rewrite <- list_elem_of_In.
Qed.

Lemma duckDuckGoSearch_entry_fields_witness :
  link second_result <> [] /\ title second_result <> []
  /\ exists q page part,
       safeEncode (js "some title") = Ok q
       /\ fetchText (serving 200 two_results (Err not_json)) (search_url q)
            user_agent [] = (Ok page, [])
       /\ In part (containers page)
       /\ captured (hrefMatch part) = Some (link second_result)
       /\ title second_result =
            or_string (strip_tags <$> captured (titleMatch part))
              (link second_result)
       /\ snippet second_result =
            default [] (strip_tags <$> captured (snippetMatch part)).
Proof.
  apply (duckDuckGoSearch_entry_fields (serving 200 two_results (Err not_json))
           (js "some title") 6 [] [first_result; second_result] []).
  - vm_compute. reflexivity.
  - right. left. reflexivity.
Defined.

(** Tags are stripped up to the end of the text, and the rest trimmed;
    the lazy title stops at the first closing tag. *)
Example strip_tags_unclosed : strip_tags (js "a <b>c</b> <unclosed") = js "a c".
Proof. vm_compute. reflexivity. Qed.

Example titleMatch_first_close :
  captured (titleMatch (js "<a>x</a>y</a>")) = Some (js "x").
Proof. vm_compute. reflexivity. Qed.

(** The scraper on the sample page, and without a network. *)
Example duckDuckGoSearch_two_results :
  duckDuckGoSearch (serving 200 two_results (Err not_json)) (js "some title")
    default_maxResults [] = (Ok [first_result; second_result], []).
Proof. vm_compute. reflexivity. Qed.

Example duckDuckGoSearch_offline :
  duckDuckGoSearch offline (js "some title") default_maxResults [] =
  (Ok [], [[VStr (js "DDG search error:"); VStr (js "fetch failed")]]).
Proof. vm_compute. reflexivity. Qed.

Example duckDuckGoSearch_empty_page :
  duckDuckGoSearch (serving 200 [] (Err not_json)) (js "some title")
    default_maxResults [] = (Ok [], []).
Proof. vm_compute. reflexivity. Qed.

(** ** The adapters *)

(** C2: [dnsRecords] returns, and what it returns has the six keys and no
    other; under each key are the records of that type's own resolver
    call, and the empty sequence when that call threw or was rejected. *)
Theorem dnsRecords_all_keys w name out :
  exists m : gmap string value,
    dnsRecords w name out = (Ok m, out)
    /\ dom m = record_types
    /\ m !! "A"%string = Some (answer (resolve w name (js "A")))
    /\ m !! "AAAA"%string = Some (answer (resolve w name (js "AAAA")))
    /\ m !! "MX"%string = Some (answer (resolveMx w name))
    /\ m !! "TXT"%string = Some (answer (resolveTxt w name))
    /\ m !! "NS"%string = Some (answer (resolveNs w name))
    /\ m !! "CNAME"%string = Some (answer (resolveCname w name)).
Proof.
  eexists. split; [apply dnsRecords_run|].
  split; [|by split_and!; simplify_map_eq].
  rewrite !dom_insert_L, dom_empty_L. unfold record_types. set_solver.
Qed.

(** A failed resolution leaves the empty sequence. *)
Lemma answer_failed e : answer (Ok (Err e)) = VArr [] /\ answer (Err e) = VArr [].
Proof. done. Qed.

Lemma answer_resolved v : answer (Ok (Ok v)) = v.
Proof. done. Qed.

(** A name without MX record, and a resolver call that throws. *)
Example dnsRecords_no_mx :
  exists m : gmap string value,
    dnsRecords no_mx (js "example.com") [] = (Ok m, [])
    /\ m !! "A"%string = Some (VArr [VStr (js "93.184.216.34")])
    /\ m !! "MX"%string = Some (VArr [])
    /\ m !! "NS"%string = Some (VArr [VStr (js "a.iana-servers.net")])
    /\ m !! "CNAME"%string = Some (VArr []).
Proof.
  destruct (dnsRecords_run no_mx (js "example.com") []) as [].
  eexists. split; [apply dnsRecords_run|]. by split_and!; simplify_map_eq.
Qed.

(** C3: [rdapLookup] returns, and never throws.  It returns the parsed
    body when the response is OK and its body parses; it returns [null]
    when the status is not OK, when the body does not parse, when the
    fetch fails and when the name cannot be encoded. *)
Theorem rdapLookup_body_or_null w kind name out :
  exists v, rdapLookup w kind name out = (Ok v, out)
    /\ (forall q res body, safeEncode name = Ok q ->
          fetch w (rdap_url kind q) user_agent = Ok res ->
          ok res = true -> json res = Ok body -> v = body)
    /\ (forall q res, safeEncode name = Ok q ->
          fetch w (rdap_url kind q) user_agent = Ok res ->
          ok res = false -> v = VNull)
    /\ (forall q res e, safeEncode name = Ok q ->
          fetch w (rdap_url kind q) user_agent = Ok res ->
          json res = Err e -> v = VNull)
    /\ (forall q e, safeEncode name = Ok q ->
          fetch w (rdap_url kind q) user_agent = Err e -> v = VNull)
    /\ (forall e, safeEncode name = Err e -> v = VNull).
Proof.
  eexists. split; [apply rdapLookup_run|].
  split_and!.
  - by intros q res body -> -> -> ->.
  - by intros q res -> -> ->.
  - intros q res e -> -> ->. by destruct (ok res).
  - by intros q e -> ->.
  - by intros e ->.
Qed.

(** [res.ok] is a status from 200 to 299. *)
Lemma ok_2xx (res : Response) :
  ok res = true <-> (200 <= status res <= 299)%Z.
Proof. unfold ok. rewrite andb_true_iff, !Z.leb_le. done. Qed.

Example rdapLookup_404 :
  rdapLookup (serving 404 (js "Not Found") (Ok (VObj []))) (js "domain")
    (js "example.invalid") [] = (Ok VNull, []).
Proof. vm_compute. reflexivity. Qed.

Example rdapLookup_200 :
  rdapLookup (serving 200 [] (Ok (VObj [("handle"%string, VStr (js "X"))])))
    (js "ip") (js "192.0.2.1") [] =
  (Ok (VObj [("handle"%string, VStr (js "X"))]), []).
Proof. vm_compute. reflexivity. Qed.

(** C4: [ipGeolocation] returns, and never raises.  When the JSON fetch
    succeeds it returns the record fetched, as it is; when the fetch or
    the parsing fails, or the address cannot be encoded, it returns the
    record of status fail with the message of the error. *)
Theorem ipGeolocation_never_raises w ip out :
  exists v, ipGeolocation w ip out = (Ok v, out)
    /\ (forall q body, safeEncode ip = Ok q ->
          fetchJson w (geo_url q) no_opts out = (Ok body, out) -> v = body)
    /\ (forall q e, safeEncode ip = Ok q ->
          fetchJson w (geo_url q) no_opts out = (Err e, out) ->
          v = fail_record e)
    /\ (forall e, safeEncode ip = Err e -> v = fail_record e).
Proof.
  eexists. split; [apply ipGeolocation_run|].
  split_and!.
  - intros q body -> Hf. by rewrite Hf.
  - intros q e -> Hf. by rewrite Hf.
  - by intros e ->.
Qed.

(** The JSON fetch fails when the fetch fails and when the body does not
    parse, and not otherwise. *)
Lemma fetchJson_fails w u opts out e :
  fetchJson w u opts out = (Err e, out) <->
  fetch w u opts = Err e
  \/ exists res, fetch w u opts = Ok res /\ json res = Err e.
Proof.
  rewrite fetchJson_run. destruct (fetch w u opts) as [res|e'].
  - split; [intros [= H]; eauto|intros [[=]|(res' & [= <-] & ->)]; done].
  - split; [intros [= ->]; auto|intros [[= ->]|(res' & [=] & _)]; done].
Qed.

Example ipGeolocation_offline :
  ipGeolocation offline (js "192.0.2.1") [] =
  (Ok (VObj [("status"%string, VStr (js "fail"));
             ("message"%string, VStr (js "fetch failed"))]), []).
Proof. vm_compute. reflexivity. Qed.

Example ipGeolocation_not_json :
  ipGeolocation (serving 200 (js "<html>") (Err not_json)) (js "192.0.2.1") [] =
  (Ok (fail_record not_json), []).
Proof. vm_compute. reflexivity. Qed.

(** ** The type classifier *)

(** C5: a string of four groups of decimal digits with dots between them
    looks like an IP address.  [looksLikeIP] takes the query alone: no
    declared type has a part in its answer. *)
Theorem looksLikeIP_dotted_quad (q : jsstring) :
  dotted_quad q -> looksLikeIP q = true.
Proof.
  intros Hq. unfold looksLikeIP. by rewrite (dotted_quad_test q Hq).
Qed.

Lemma looksLikeIP_dotted_quad_witness : looksLikeIP (js "192.168.0.1") = true.
Proof.
  apply looksLikeIP_dotted_quad.
  exists (js "192"), (js "168"), (js "0"), (js "1").
  unfold decimal_group, all_digits.
  repeat split; try discriminate; repeat constructor.
Defined.

(** C6: a string with a colon in it looks like an IP address, whatever
    else it holds. *)
Theorem looksLikeIP_colon (q : jsstring) :
  In (cu ":") q -> looksLikeIP q = true.
Proof.
  intros Hq. unfold looksLikeIP.
  change (js ":") with [cu ":"]. rewrite (includes_elem _ _ Hq).
  apply orb_true_r.
Qed.

Lemma looksLikeIP_colon_witness : looksLikeIP (js "example.com:8080") = true.
Proof.
  apply looksLikeIP_colon. vm_compute. tauto.
Defined.

(** The two tests and no other: a string looks like an IP address when it
    is a dotted quad or holds a colon, and only then. *)
Lemma looksLikeIP_iff (q : jsstring) :
  looksLikeIP q = true <-> dotted_quad q \/ In (cu ":") q.
Proof.
  unfold looksLikeIP. rewrite orb_true_iff. change (js ":") with [cu ":"].
  split; intros [H|H].
  - left. by apply dotted_quad_test_inv.
  - right. by apply includes_inv.
  - left. by apply dotted_quad_test.
  - right. by apply includes_elem.
Qed.

Example looksLikeIP_domain : looksLikeIP (js "example.com") = false.
Proof. vm_compute. reflexivity. Qed.

Example looksLikeIP_three_groups : looksLikeIP (js "10.0.1") = false.
Proof. vm_compute. reflexivity. Qed.

(** ** The phone normaliser *)

(** C7, as the code has it: a non-empty input is normalised; the digits
    are the digits of the cleaned string; the e164 form is a plus and the
    digits when the cleaned string starts with a plus, and the digits
    alone when it does not. *)
Theorem normalizePhone_e164 (r0 : jsstring) :
  r0 <> [] ->
  exists r, normalizePhone r0 = Some r
    /\ digits r = List.filter is_digit (cleaned r)
    /\ (startsWith (js "+") (cleaned r) = true ->
          e164 r = js "+" ++ digits r)
    /\ (startsWith (js "+") (cleaned r) = false -> e164 r = digits r).
Proof.
  intros Hne. rewrite normalizePhone_clean.
  destruct r0 as [|c t]; [done|]. cbv zeta. eexists. split; [reflexivity|].
  cbn [digits cleaned e164]. split; [done|]. by split; intros ->.
Qed.

Lemma normalizePhone_e164_witness :
  exists r, normalizePhone (js "+1 (555) 123-4567") = Some r
    /\ digits r = List.filter is_digit (cleaned r)
    /\ (startsWith (js "+") (cleaned r) = true ->
          e164 r = js "+" ++ digits r)
    /\ (startsWith (js "+") (cleaned r) = false -> e164 r = digits r).
Proof.
  apply (normalizePhone_e164 (js "+1 (555) 123-4567")). vm_compute. discriminate.
Defined.

(** C7 as it is stated fails: a plus inside the cleaned string, not at its
    start, gives an e164 form without a plus. *)
Lemma normalizePhone_inner_plus :
  ~ (forall r0 r, r0 <> [] -> normalizePhone r0 = Some r ->
       (In (cu "+") (cleaned r) -> e164 r = js "+" ++ digits r)
       /\ (~ In (cu "+") (cleaned r) -> e164 r = digits r)).
Proof.
  intros H.
  destruct (H (js "1+2")
              {| raw := js "1+2"; cleaned := js "1+2"; digits := js "12";
                 e164 := js "12" |}) as [Hplus _].
  - discriminate.
  - vm_compute. reflexivity.
  - cbn [cleaned e164 digits] in Hplus.
    assert (In (cu "+") (js "1+2")) as Hin by (vm_compute; tauto).
    apply Hplus in Hin. vm_compute in Hin. discriminate.
Qed.

Example normalizePhone_spec_example :
  normalizePhone (js "+1 (555) 123-4567") =
  Some {| raw := js "+1 (555) 123-4567"; cleaned := js "+15551234567";
          digits := js "15551234567"; e164 := js "+15551234567" |}.
Proof. vm_compute. reflexivity. Qed.

Example normalizePhone_international_prefix :
  normalizePhone (js "0044123456789") =
  Some {| raw := js "0044123456789"; cleaned := js "+44123456789";
          digits := js "44123456789"; e164 := js "+44123456789" |}.
Proof. vm_compute. reflexivity. Qed.

(** C8, as the code has it: when the e164 form of an input is not empty
    and does not start with 00, normalising that form gives it back, as
    the cleaned string and as the e164 form. *)
Theorem normalizePhone_idempotent (r0 : jsstring) (r : NormalizedPhone) :
  normalizePhone r0 = Some r ->
  e164 r <> [] ->
  startsWith (js "00") (e164 r) = false ->
  normalizePhone (e164 r) =
    Some {| raw := e164 r; cleaned := e164 r; digits := digits r;
            e164 := e164 r |}.
Proof.
  intros Hr. destruct (normalizePhone_Some _ _ Hr) as (_ & _ & _ & Hdg & ->).
  assert (all_digits (digits r)) as Hd
    by (rewrite Hdg; apply filter_all_digits).
  destruct (startsWith (js "+") (cleaned r)); intros Hne H00.
  - by apply normalizePhone_plus_digits.
  - by apply normalizePhone_all_digits.
Qed.

Lemma normalizePhone_idempotent_witness :
  normalizePhone (js "+15551234567") =
  Some {| raw := js "+15551234567"; cleaned := js "+15551234567";
          digits := js "15551234567"; e164 := js "+15551234567" |}.
Proof.
  apply (normalizePhone_idempotent (js "+1 (555) 123-4567")
           {| raw := js "+1 (555) 123-4567"; cleaned := js "+15551234567";
              digits := js "15551234567"; e164 := js "+15551234567" |}).
  - vm_compute. reflexivity.
  - discriminate.
  - vm_compute. reflexivity.
Defined.

(** The two conditions are the only ones: normalising the e164 form gives
    it back in no other case. *)
Lemma normalizePhone_idempotent_only (r0 : jsstring) (r r' : NormalizedPhone) :
  normalizePhone r0 = Some r ->
  normalizePhone (e164 r) = Some r' ->
  e164 r' = e164 r ->
  e164 r <> [] /\ startsWith (js "00") (e164 r) = false.
Proof.
  intros Hr Hr' He.
  destruct (normalizePhone_Some _ _ Hr') as (Hne & _ & Hc' & Hdg' & He').
  split; [done|].
  apply not_true_is_false. intros H00.
  destruct (normalizePhone_Some _ _ Hr) as (_ & _ & _ & Hdg & Her).
  assert (all_digits (e164 r)) as Hd.
  { rewrite Her in H00 |- *.
    destruct (startsWith (js "+") (cleaned r)); [done|].
    rewrite Hdg. apply filter_all_digits. }
  assert (cleaned r' = js "+" ++ drop 2 (e164 r)) as Hcl.
  { rewrite Hc'. unfold clean.
    rewrite (filter_id _ _ (all_digits_phone _ Hd)).
    cbv zeta. by rewrite (all_digits_no_plus _ Hd), H00. }
  rewrite Hcl in He'.
  change (startsWith (js "+") (js "+" ++ ?t)) with true in He'.
  cbv iota in He'. rewrite He in He'. rewrite He' in Hd.
  by apply Forall_cons in Hd as [Hd _].
Qed.

(** C8 as it is stated fails: an input without a digit or a plus has the
    empty string as its e164 form, and the empty string is normalised to
    [null]. *)
Lemma normalizePhone_not_idempotent :
  ~ (forall r0 r, r0 <> [] -> normalizePhone r0 = Some r ->
       exists r', normalizePhone (e164 r) = Some r' /\ e164 r' = e164 r).
Proof.
  intros H.
  destruct (H (js "abc")
              {| raw := js "abc"; cleaned := []; digits := []; e164 := [] |})
    as (r' & Hr' & _).
  - discriminate.
  - vm_compute. reflexivity.
  - discriminate.
Qed.

(** It fails as well where the e164 form starts with 00, which a plus
    between two zeros brings about. *)
Example normalizePhone_zero_plus_zero :
  normalizePhone (js "0+05") =
    Some {| raw := js "0+05"; cleaned := js "0+05"; digits := js "005";
            e164 := js "005" |}
  /\ normalizePhone (js "005") =
    Some {| raw := js "005"; cleaned := js "+5"; digits := js "5";
            e164 := js "+5" |}.
Proof. split; vm_compute; reflexivity. Qed.

(** * Further properties *)

(** ** Lemmas *)

Lemma fmap_Ok_inv {A B} (f : A -> B) (c : result A) (b : B) :
  f <$> c = Ok b -> exists a, c = Ok a /\ b = f a.
Proof. destruct c as [a|e]; [|done]. intros [= <-]. by exists a. Qed.

Lemma encodes_sound (s : jsstring) : forall q, safeEncode s = Ok q -> encodes s q.
Proof.
  unfold safeEncode.
  induction s as [s IH] using (induction_ltof1 _ (@length N)).
  unfold ltof in IH. destruct s as [|c t]; intros q.
  - intros [= <-]. constructor.
  - cbn [encodeURIComponent]. destruct (unreserved c) eqn:Hu.
    + intros (q' & Hq' & ->)%fmap_Ok_inv.
      apply encodes_plain; [done|]. apply IH; [cbn; lia|done].
    + destruct (is_trail c) eqn:Ht; [done|].
      destruct (is_lead c) eqn:Hl.
      * destruct t as [|d t']; [done|].
        destruct (is_trail d) eqn:Hd; [|done].
        intros (q' & Hq' & ->)%fmap_Ok_inv.
        apply encodes_pair; try done. apply IH; [cbn; lia|done].
      * intros (q' & Hq' & ->)%fmap_Ok_inv.
        apply encodes_escape; try done. apply IH; [cbn; lia|done].
Qed.

Lemma encodes_complete (s q : jsstring) : encodes s q -> safeEncode s = Ok q.
Proof.
  unfold safeEncode.
  induction 1 as [|c t q Hu _ IH|c t q Hu Ht Hl _ IH|c d t q Hu Ht Hl Hd _ IH];
    cbn [encodeURIComponent]; rewrite ?Hu, ?Ht, ?Hl, ?Hd, ?IH; done.
Qed.

Lemma encodes_app a qa : encodes a qa ->
  forall b qb, encodes b qb -> encodes (a ++ b) (qa ++ qb).
Proof.
  induction 1; intros b qb Hb; cbn [app]; rewrite <- ?app_assoc;
    try (by constructor; auto).
  done.
Qed.

Lemma unreserved_safe c : unreserved c = true -> url_safe c = true.
Proof. unfold url_safe. by intros ->. Qed.

Lemma hex_digit_safe d : (d < 16)%N -> url_safe (hex_digit d) = true.
Proof.
  intros Hd. apply unreserved_safe. unfold hex_digit, unreserved, in_range.
  rewrite !orb_true_iff, !andb_true_iff, !N.leb_le.
  destruct (N.ltb_spec d 10); lia.
Qed.

Lemma lor_lt_256 a b : (a < 256)%N -> (b < 256)%N -> (N.lor a b < 256)%N.
Proof.
  intros Ha Hb. destruct (N.eq_dec (N.lor a b) 0%N) as [->|Hne]; [lia|].
  change 256%N with (2 ^ 8)%N. apply N.log2_lt_pow2; [lia|].
  rewrite N.log2_lor. apply N.max_lub_lt.
  - destruct (N.eq_dec a 0%N) as [->|]; [done|]. apply N.log2_lt_pow2; lia.
  - destruct (N.eq_dec b 0%N) as [->|]; [done|]. apply N.log2_lt_pow2; lia.
Qed.

Lemma land_63 a : (N.land a 63 < 64)%N.
Proof.
  change 63%N with (N.ones 6). rewrite N.land_ones.
  apply N.mod_lt. done.
Qed.

Lemma shiftr_lt a n b : (a < b * 2 ^ n)%N -> (N.shiftr a n < b)%N.
Proof.
  intros H. rewrite N.shiftr_div_pow2.
  apply N.Div0.div_lt_upper_bound. lia.
Qed.

Lemma utf8_octets cp :
  (cp < 1114112)%N -> Forall (fun o => (o < 256)%N) (utf8 cp).
Proof.
  intros Hcp. unfold utf8.
  pose proof (land_63 cp). pose proof (land_63 (N.shiftr cp 6)).
  pose proof (land_63 (N.shiftr cp 12)).
  destruct (N.ltb_spec cp 128); [repeat constructor; lia|].
  destruct (N.ltb_spec cp 2048).
  { pose proof (shiftr_lt cp 6 32 ltac:(cbn; lia)).
    repeat constructor; apply lor_lt_256; lia. }
  destruct (N.ltb_spec cp 65536).
  { pose proof (shiftr_lt cp 12 16 ltac:(cbn; lia)).
    repeat constructor; apply lor_lt_256; lia. }
  pose proof (shiftr_lt cp 18 5 ltac:(cbn; lia)).
  repeat constructor; apply lor_lt_256; lia.
Qed.

Lemma percent_safe o :
  (o < 256)%N -> Forall (fun c => url_safe c = true) (percent o).
Proof.
  intros Ho. unfold percent. repeat constructor.
  - apply hex_digit_safe, (shiftr_lt o 4 16). cbn. lia.
  - apply hex_digit_safe. change 15%N with (N.ones 4). rewrite N.land_ones.
    apply N.mod_lt. done.
Qed.

Lemma escape_safe cp :
  (cp < 1114112)%N -> Forall (fun c => url_safe c = true) (escape cp).
Proof.
  intros Hcp. unfold escape. apply utf8_octets in Hcp.
  induction Hcp as [|o os Ho _ IH]; [constructor|].
  change (mjoin (percent <$> o :: os))
    with (percent o ++ mjoin (percent <$> os)).
  apply Forall_app_2; [by apply percent_safe|done].
Qed.

Lemma encodes_safe s q :
  encodes s q -> Forall code_unit s -> Forall (fun c => url_safe c = true) q.
Proof.
  unfold code_unit.
  induction 1 as [|c t q Hu _ IH|c t q Hu Ht Hl _ IH|c d t q Hu Ht Hl Hd _ IH];
    intros Hs.
  - constructor.
  - apply Forall_cons in Hs as [_ Hs]. constructor; [by apply unreserved_safe|auto].
  - apply Forall_cons in Hs as [Hc Hs]. apply Forall_app_2; [|auto].
    apply escape_safe. lia.
  - apply Forall_cons in Hs as [Hc Hs]. apply Forall_cons in Hs as [Hd' Hs].
    apply Forall_app_2; [|auto]. apply escape_safe.
    unfold is_lead, is_trail, in_range in *.
    rewrite andb_true_iff, !N.leb_le in Hl, Hd. lia.
Qed.

Lemma startsWith_prefix (p s : jsstring) :
  startsWith p s = true -> s = p ++ drop (length p) s.
Proof.
  revert s. induction p as [|a p IH]; intros [|b s]; cbn; try done.
  intros [->%N.eqb_eq H]%andb_true_iff. f_equal. by apply IH.
Qed.

Lemma startsWith_length (p s : jsstring) :
  startsWith p s = true -> length p <= length s.
Proof.
  intros H. apply startsWith_prefix in H.
  rewrite H, length_app. lia.
Qed.

Lemma split_go_join (sep : jsstring) : sep <> [] ->
  forall (s acc : jsstring) k, k <= length s ->
    exists p ps, split_go sep acc k s = p :: ps
      /\ p ++ concat (map (app sep) ps) = rev acc ++ drop k s.
Proof.
  intros Hsep. induction s as [|c t IH]; intros acc k Hk.
  - cbn in Hk. replace k with 0 by lia. exists (rev acc), []. done.
  - cbn [split_go]. destruct k as [|k].
    + destruct (startsWith sep (c :: t)) eqn:Hs.
      * pose proof (startsWith_length _ _ Hs) as Hlen.
        apply startsWith_prefix in Hs.
        destruct sep as [|a sep]; [done|]. cbn [length] in *.
        replace (S (length sep) - 1) with (length sep) by lia.
        destruct (IH [] (length sep)) as (p & ps & -> & Hj); [lia|].
        exists (rev acc), (p :: ps). split; [done|].
        cbn [map concat rev app drop] in *. rewrite <- app_assoc, Hj.
        by rewrite <- Hs.
      * destruct (IH (c :: acc) 0) as (p & ps & -> & Hj); [lia|].
        exists p, ps. split; [done|]. rewrite Hj. cbn. by rewrite <- app_assoc.
    + destruct (IH acc k) as (p & ps & -> & Hj); [cbn in Hk; lia|].
      by exists p, ps.
Qed.

Lemma trimStart_ahead (s : jsstring) : no_space_ahead (trimStart s).
Proof.
  induction s as [|c t IH]; [done|]. cbn [trimStart].
  by destruct (is_white_space c) eqn:Hc.
Qed.

Lemma trimStart_snoc (s : jsstring) c :
  is_white_space c = false -> trimStart (s ++ [c]) = trimStart s ++ [c].
Proof.
  intros Hc. induction s as [|d t IH]; cbn; [by rewrite Hc|].
  by destruct (is_white_space d).
Qed.

Lemma trimEnd_ahead (s : jsstring) : no_space_ahead s -> no_space_ahead (trimEnd s).
Proof.
  unfold trimEnd. destruct s as [|c t]; [done|]. cbn [no_space_ahead rev].
  intros Hc. rewrite trimStart_snoc by done. rewrite rev_app_distr. done.
Qed.

Lemma trim_trimmed (s : jsstring) : trimmed (trim s).
Proof.
  unfold trimmed, trim. split.
  - apply trimEnd_ahead, trimStart_ahead.
  - unfold trimEnd. rewrite rev_involutive. apply trimStart_ahead.
Qed.

Lemma match_at_tag i (s : jsstring) :
  match s with c :: _ => c <> cu "<" | [] => True end ->
  match_at re_tag i s = None.
Proof.
  unfold match_at, re_tag. cbn [pattern re_flags Cat]. rewrite m_seq.
  cbn [m]. unfold one_char at 1, chr_mem. cbn [rest ignoreCase no_flags andb].
  destruct s as [|c t]; [done|]. intros Hc. rewrite orb_false_r.
  by destruct (N.eqb_spec (cu "<") c).
Qed.

Lemma replace_tag_free (s : jsstring) i :
  ~ In (cu "<") s -> replace_go re_tag [] i 0 s = s.
Proof.
  revert i. induction s as [|c t IH]; intros i Hs; cbn [replace_go].
  - by rewrite match_at_tag.
  - rewrite match_at_tag by (intros ->; apply Hs; by left).
    f_equal. apply IH. intros Hin. apply Hs. by right.
Qed.

Section Runs.
Context {R : Type}.
Implicit Types (k : mstate -> option R) (x : mstate).

Lemma rounds_class_inv fl neg items fuel : forall i s cs k z,
  rounds (fun x' => m fl (Class neg items) (enter (Class neg items) x'))
    true k fuel {| pos := i; rest := s; caps := cs |} = Some z ->
  exists g t, s = g ++ t
    /\ Forall (fun c => class_mem fl neg items c = true) g
    /\ k {| pos := i + length g; rest := t; caps := cs |} = Some z.
Proof.
  induction fuel as [|fuel IH]; intros i s cs k z; [done|].
  cbn [rounds]. intros [H|H]%or_else_Some.
  - cbn [m] in H. unfold one_char, enter in H. cbn [rest pos caps] in H.
    destruct s as [|c s]; [done|].
    destruct (class_mem fl neg items c) eqn:Hc; [|done].
    apply moved_Some in H. unfold advance in H. cbn [pos rest caps groups foldr] in H.
    apply IH in H as (g & t & -> & Hg & Hk).
    exists (c :: g), t. split; [done|]. split; [by constructor|].
    rewrite <- Hk. f_equal. cbn. f_equal. lia.
  - exists [], s. split; [done|]. split; [constructor|].
    rewrite <- H. f_equal. cbn. f_equal. lia.
Qed.

Lemma m_plus_class_inv fl neg items i s cs k z :
  m fl (Plus true (Class neg items)) {| pos := i; rest := s; caps := cs |} k
  = Some z ->
  exists g t, s = g ++ t /\ g <> []
    /\ Forall (fun c => class_mem fl neg items c = true) g
    /\ k {| pos := i + length g; rest := t; caps := cs |} = Some z.
Proof.
  unfold Plus. rewrite m_seq. intros H.
  cbn [m] in H. unfold one_char at 1 in H. cbn [rest] in H.
  destruct s as [|c s]; [done|].
  destruct (class_mem fl neg items c) eqn:Hc; [|done].
  unfold advance in H. cbn [pos rest caps] in H.
  apply rounds_class_inv in H as (g & t & -> & Hg & Hk).
  exists (c :: g), t. split; [done|]. split; [done|]. split; [by constructor|].
  rewrite <- Hk. f_equal. cbn. f_equal. lia.
Qed.

Lemma m_captures_run fl n neg items r :
  captures_run n (Class neg items) r ->
  forall x k z, m fl r x k = Some z ->
    exists y g, k y = Some z /\ cap_get n (caps y) = Some g /\ g <> []
      /\ Forall (fun c => class_mem fl neg items c = true) g.
Proof.
  induction r as [|a| |neg' items'|a IHa b IHb|a IHa b IHb|g r IH|g r IH
                 |i r IH| |]; cbn [captures_run]; try done.
  - intros Hs x k z. cbn [m]. intros H.
    destruct Hs as [Hb|[Ha Hng]].
    + apply m_reaches in H as (y1 & H & _). by apply (IHb Hb) in H.
    + apply (IHa Ha) in H as (y1 & g & H & Hget & Hg).
      apply m_reaches in H as (y & H & Hc).
      exists y, g. split; [done|]. by rewrite Hc.
  - intros [-> ->] [j s cs] k z. cbn [m].
    change (m fl (Seq (Class neg items) (Star true (Class neg items))))
      with (m (R := R) fl (Plus true (Class neg items))).
    intros (g & t & -> & Hne & Hg & Hk)%m_plus_class_inv.
    eexists _, g. split; [exact Hk|]. cbn [caps pos rest].
    replace (j + length g - j) with (length g) by lia.
    rewrite take_app_length, cap_get_set. done.
Qed.
End Runs.

Lemma exec_from_run re n neg items :
  captures_run (S n) (Class neg items) (pattern re) ->
  forall i (s : jsstring) mr,
    exec_from re i s = Some mr ->
    exists g, group mr (S n) = Some g /\ g <> []
      /\ Forall (fun c => class_mem (re_flags re) neg items c = true) g.
Proof.
  intros Hs i s. revert i.
  assert (forall i (s : jsstring) y, match_at re i s = Some y ->
            exists g, cap_get (S n) (caps y) = Some g /\ g <> []
              /\ Forall (fun c => class_mem (re_flags re) neg items c = true) g)
    as Hat.
  { intros i s' y Hy. unfold match_at in Hy.
    apply (m_captures_run _ _ _ _ _ Hs) in Hy as (y' & g & [= ->] & Hg).
    by exists g. }
  induction s as [|c t IH]; intros i mr; cbn [exec_from].
  - destruct (match_at re i []) as [y|] eqn:Hy; [|done].
    intros [= <-]. cbn [group m_groups]. by eapply Hat.
  - destruct (match_at re i (c :: t)) as [y|] eqn:Hy.
    + intros [= <-]. cbn [group m_groups]. by eapply Hat.
    + apply IH.
Qed.

Lemma not_dq_class c : class_mem flag_i true [CChar dq] c = true -> c <> dq.
Proof.
  unfold class_mem, item_mem. cbn [existsb item_has].
  intros H ->. by rewrite N.eqb_refl in H.
Qed.

Lemma hrefMatch_run part h :
  captured (hrefMatch part) = Some h -> h <> [] /\ ~ In dq h.
Proof.
  unfold captured, hrefMatch. intros H.
  assert (exists re mr, str_match re part = Some mr /\ group mr 1 = Some h
            /\ captures_run 1 (Class true [CChar dq]) (pattern re)
            /\ re_flags re = flag_i) as (re & mr & Hm & Hg & Hrun & Hfl).
  { destruct (str_match re_href_result part) as [mr|] eqn:H1; cbn in H.
    - exists re_href_result, mr. split_and!; try done.
      cbn. repeat first [by (right; split; [split|])|left].
    - destruct (str_match re_href_any part) as [mr|] eqn:H2; [|done]. cbn in H.
      exists re_href_any, mr. split_and!; try done.
      cbn. repeat first [by (right; split; [split|])|left]. }
  apply (exec_from_run re 0 _ _ Hrun) in Hm as (g & Hg' & Hne & Hall).
  rewrite Hg in Hg'. injection Hg' as <-. split; [done|].
  rewrite Hfl in Hall. intros Hin. apply list_elem_of_In in Hin.
  rewrite Forall_forall in Hall. by apply Hall, not_dq_class in Hin.
Qed.

(** ** Encoding, further *)

Lemma safeEncode_error (s : jsstring) e : safeEncode s = Err e -> e = URIError.
Proof.
  unfold safeEncode.
  induction s as [s IH] using (induction_ltof1 _ (@length N)).
  unfold ltof in IH. destruct s as [|c t]; [done|].
  cbn [encodeURIComponent].
  assert (forall (f : jsstring -> jsstring) (u : jsstring),
            length u < length (c :: t) ->
            f <$> encodeURIComponent u = Err e -> e = URIError) as Hrec.
  { intros f u Hu H. apply (IH u Hu).
    by destruct (encodeURIComponent u); [|injection H as ->]. }
  destruct (unreserved c); [apply Hrec; cbn; lia|].
  destruct (is_trail c); [by intros [= <-]|].
  destruct (is_lead c); [|apply Hrec; cbn; lia].
  destruct t as [|d t']; [by intros [= <-]|].
  destruct (is_trail d); [apply Hrec; cbn; lia|by intros [= <-]].
Qed.

(** X1: [safeEncode] returns exactly on the strings in which every surrogate
    has its partner, and the only error it throws is the URIError. *)
Theorem safeEncode_returns_iff (s : jsstring) :
  ((exists q, safeEncode s = Ok q) <-> well_formed s = true)
  /\ (forall e, safeEncode s = Err e -> e = URIError).
Proof. split; [apply safeEncode_well_formed|apply safeEncode_error]. Qed.

(** X2: on a string of 16-bit code units, what [safeEncode] returns holds
    unreserved characters and percent signs only: no delimiter of an
    address, no space and no character beyond ASCII. *)
Theorem safeEncode_url_safe (s q : jsstring) :
  Forall code_unit s -> safeEncode s = Ok q ->
  Forall (fun c => url_safe c = true) q.
Proof.
  intros Hs Hq. apply (encodes_safe s q); [by apply encodes_sound|done].
Qed.

Lemma safeEncode_url_safe_witness :
  Forall (fun c => url_safe c = true) (js "a%20b%26c%3Dd%2Fe%3F%23").
Proof.
  apply (safeEncode_url_safe (js "a b&c=d/e?#")).
  - unfold code_unit. repeat constructor.
  - vm_compute. reflexivity.
Defined.

Lemma safeEncode_plain (s : jsstring) :
  Forall (fun c => unreserved c = true) s -> safeEncode s = Ok s.
Proof.
  intros Hs. apply encodes_complete.
  induction Hs; by constructor.
Qed.

(** X3: a string of unreserved characters (letters, digits and
    [-_.!~*'()]) is encoded as itself. *)
Theorem safeEncode_unreserved (s : jsstring) :
  Forall (fun c => unreserved c = true) s -> safeEncode s = Ok s.
Proof. apply safeEncode_plain. Qed.

Lemma safeEncode_unreserved_witness :
  safeEncode (js "John-Doe_42.txt") = Ok (js "John-Doe_42.txt").
Proof.
  apply (safeEncode_unreserved (js "John-Doe_42.txt")).
  repeat constructor.
Defined.

(** X4: the encoding of two strings one after the other is the encoding
    of the first followed by the encoding of the second, when both are
    encoded. *)
Theorem safeEncode_app (a b qa qb : jsstring) :
  safeEncode a = Ok qa -> safeEncode b = Ok qb ->
  safeEncode (a ++ b) = Ok (qa ++ qb).
Proof.
  intros Ha%encodes_sound Hb%encodes_sound.
  by apply encodes_complete, encodes_app.
Qed.

Lemma safeEncode_app_witness :
  safeEncode (js "a b" ++ js "c&d") = Ok (js "a%20b" ++ js "c%26d").
Proof.
  apply (safeEncode_app (js "a b") (js "c&d")); vm_compute; reflexivity.
Defined.

(** ** The scraper, further *)

(** X5: the loop over the result containers never throws, whatever the
    containers hold: it ends in the results it was given followed by the
    entries it pushed, of which there are no more than [maxResults] allows. *)
Theorem for_parts_never_throws maxResults parts results :
  exists more,
    for_parts maxResults parts results = Ok (results ++ more)
    /\ length more <= maxResults - length results.
Proof.
  destruct (Nat.le_gt_cases (length results) maxResults) as [Hle|Hgt].
  - rewrite for_parts_take by done. eexists. split; [done|].
    rewrite length_take. lia.
  - exists []. rewrite app_nil_r. split; [|cbn; lia].
    destruct parts as [|part parts]; [done|]. cbn [for_parts].
    by destruct (Nat.leb_spec maxResults (length results)); [|lia].
Qed.

Lemma duckDuckGoSearch_Ok w query maxResults out rs out' :
  duckDuckGoSearch w query maxResults out = (Ok rs, out') ->
  exists q, safeEncode query = Ok q
    /\ ((exists page,
           fetchText w (search_url q) user_agent out = (Ok page, out')
           /\ rs = take maxResults (omap entry (containers page)))
        \/ (exists e,
           fetchText w (search_url q) user_agent out = (Err e, out)
           /\ rs = []
           /\ out' = [VStr (js "DDG search error:"); VStr (err_message e)]
                     :: out)).
Proof.
  intros Hrun.
  destruct (safeEncode query) as [q|e] eqn:Hq;
    [|by rewrite (duckDuckGoSearch_throws _ _ _ _ _ Hq) in Hrun].
  rewrite (duckDuckGoSearch_run _ _ _ _ _ Hq) in Hrun. exists q. split; [done|].
  pose proof (fetchText_run w (search_url q) user_agent out) as Hf.
  destruct (fetchText w (search_url q) user_agent out) as [[page|e] out1];
    injection Hrun as <- <-; injection Hf as _ ->; eauto 10.
Qed.

Lemma duckDuckGoSearch_entry_of w query maxResults out rs out' r :
  duckDuckGoSearch w query maxResults out = (Ok rs, out') ->
  In r rs -> exists part, entry part = Some r.
Proof.
  intros (q & _ & [(page & _ & ->)|(e & _ & -> & _)])%duckDuckGoSearch_Ok Hr;
    [|done].
  apply list_elem_of_In, elem_of_take in Hr as (i & Hr & _).
  apply list_elem_of_lookup_2, list_elem_of_omap in Hr as (part & _ & He).
  by exists part.
Qed.

Lemma entry_Some part r :
  entry part = Some r ->
  captured (hrefMatch part) = Some (link r)
  /\ title r = or_string (strip_tags <$> captured (titleMatch part)) (link r)
  /\ snippet r = default [] (strip_tags <$> captured (snippetMatch part)).
Proof.
  unfold entry. destruct (captured (hrefMatch part)) as [h|]; [|done].
  destruct (truthy h); [|done]. by intros [= <-].
Qed.

(** X6: with a smaller [maxResults] the scraper returns the start of what
    it returns with a larger one, on the same network and query. *)
Theorem duckDuckGoSearch_prefix w query n n' out rs rs' out1 out2 :
  n <= n' ->
  duckDuckGoSearch w query n out = (Ok rs, out1) ->
  duckDuckGoSearch w query n' out = (Ok rs', out2) ->
  rs = take n rs'.
Proof.
  intros Hn (q & Hq & H1)%duckDuckGoSearch_Ok (q' & Hq' & H2)%duckDuckGoSearch_Ok.
  rewrite Hq in Hq'. injection Hq' as <-.
  destruct H1 as [(page & Hf & ->)|(e & Hf & -> & _)],
           H2 as [(page' & Hf' & ->)|(e' & Hf' & -> & _)];
    rewrite Hf in Hf'; try done.
  - injection Hf' as <- _. rewrite take_take. f_equal. lia.
  - by rewrite take_nil.
Qed.

Lemma duckDuckGoSearch_prefix_witness :
  [first_result] = take 1 [first_result; second_result].
Proof.
  apply (duckDuckGoSearch_prefix (serving 200 two_results (Err not_json))
           (js "some title") 1 6 [] _ _ [] []).
  - lia.
  - vm_compute. reflexivity.
  - vm_compute. reflexivity.
Defined.

(** X7: a fetched page in which the text of the result container does not
    occur gives the empty list, and no line on the console. *)
Theorem duckDuckGoSearch_no_container w query maxResults out q page :
  safeEncode query = Ok q ->
  fetchText w (search_url q) user_agent out = (Ok page, out) ->
  includes result_container page = false ->
  duckDuckGoSearch w query maxResults out = (Ok [], out).
Proof.
  intros Hq Hf Hp. rewrite (duckDuckGoSearch_run _ _ _ _ _ Hq), Hf.
  rewrite (containers_none _ Hp). by destruct maxResults.
Qed.

Lemma duckDuckGoSearch_no_container_witness :
  duckDuckGoSearch (serving 200 (js "<html><body>Too many requests</body></html>")
                      (Err not_json))
    (js "some title") 6 [] = (Ok [], []).
Proof.
  apply (duckDuckGoSearch_no_container _ _ _ _ (js "some%20title")
           (js "<html><body>Too many requests</body></html>"));
    vm_compute; reflexivity.
Defined.

(** X8: on an encodable query the scraper leaves the console as it is
    when the page is fetched; when the fetch fails it returns the empty
    list and writes one line, the label and the message of the error. *)
Theorem duckDuckGoSearch_console w query maxResults out q :
  safeEncode query = Ok q ->
  (forall page, fetchText w (search_url q) user_agent out = (Ok page, out) ->
     snd (duckDuckGoSearch w query maxResults out) = out)
  /\ (forall e, fetchText w (search_url q) user_agent out = (Err e, out) ->
        duckDuckGoSearch w query maxResults out =
        (Ok [], [VStr (js "DDG search error:"); VStr (err_message e)] :: out)).
Proof.
  intros Hq. rewrite (duckDuckGoSearch_run _ _ _ _ _ Hq).
  split; [intros page ->|intros e ->]; done.
Qed.

Lemma duckDuckGoSearch_console_witness :
  (forall page,
     fetchText offline (search_url (js "some%20title")) user_agent [] =
       (Ok page, []) ->
     snd (duckDuckGoSearch offline (js "some title") 6 []) = [])
  /\ (forall e,
        fetchText offline (search_url (js "some%20title")) user_agent [] =
          (Err e, []) ->
        duckDuckGoSearch offline (js "some title") 6 [] =
        (Ok [], [VStr (js "DDG search error:"); VStr (err_message e)] :: [])).
Proof.
  apply (duckDuckGoSearch_console offline (js "some title") 6 []).
  vm_compute. reflexivity.
Defined.

(** X9: the containers of a page are the pieces [split] gives after the
    first, and nothing of the page is lost: the page is the first piece
    followed by every container behind the text it was split at. *)
Theorem containers_cover (page : jsstring) :
  exists head,
    JsString.split result_container page = head :: containers page
    /\ page = head ++ concat (map (app result_container) (containers page)).
Proof.
  unfold containers, JsString.split.
  destruct (split_go_join result_container ltac:(done) page [] 0 ltac:(lia))
    as (p & ps & -> & Hj).
  exists p. by rewrite drop_0 in Hj.
Qed.

(** X10: the snippet of every entry has no white space at its ends, and so
    has its title unless the title is the link. *)
Theorem duckDuckGoSearch_trimmed w query maxResults out rs out' r :
  duckDuckGoSearch w query maxResults out = (Ok rs, out') ->
  In r rs ->
  trimmed (snippet r) /\ (title r = link r \/ trimmed (title r)).
Proof.
  intros Hrun Hr.
  destruct (duckDuckGoSearch_entry_of _ _ _ _ _ _ _ Hrun Hr) as [part He].
  apply entry_Some in He as (_ & -> & ->). split.
  - destruct (captured (snippetMatch part)); [apply trim_trimmed|done].
  - unfold or_string.
    destruct (captured (titleMatch part)) as [t|]; [|by left]. cbn.
    destruct (truthy (strip_tags t)); [right; apply trim_trimmed|by left].
Qed.

Lemma duckDuckGoSearch_trimmed_witness :
  trimmed (snippet first_result)
  /\ (title first_result = link first_result \/ trimmed (title first_result)).
Proof.
  apply (duckDuckGoSearch_trimmed (serving 200 two_results (Err not_json))
           (js "some title") 6 [] [first_result; second_result] []).
  - vm_compute. reflexivity.
  - left. reflexivity.
Defined.

(** X11: a text without the character [<] is only trimmed by the tag
    stripping. *)
Theorem strip_tags_tag_free (x : jsstring) :
  ~ In (cu "<") x -> strip_tags x = trim x.
Proof.
  intros Hx. unfold strip_tags, replace_all. by rewrite replace_tag_free.
Qed.

Lemma strip_tags_tag_free_witness :
  strip_tags (js "  3 > 2 & so on ") = trim (js "  3 > 2 & so on ").
Proof.
  apply strip_tags_tag_free. vm_compute. intuition discriminate.
Defined.

(** X12: the link of an entry holds no double quote. *)
Theorem duckDuckGoSearch_link_no_quote w query maxResults out rs out' r :
  duckDuckGoSearch w query maxResults out = (Ok rs, out') ->
  In r rs -> ~ In dq (link r).
Proof.
  intros Hrun Hr.
  destruct (duckDuckGoSearch_entry_of _ _ _ _ _ _ _ Hrun Hr) as [part He].
  apply entry_Some in He as (Hh & _). by apply hrefMatch_run in Hh as [_ Hh].
Qed.

Lemma duckDuckGoSearch_link_no_quote_witness : ~ In dq (link second_result).
Proof.
  apply (duckDuckGoSearch_link_no_quote (serving 200 two_results (Err not_json))
           (js "some title") 6 [] [first_result; second_result] []).
  - vm_compute. reflexivity.
  - right. left. reflexivity.
Defined.

(** ** The adapters, further *)

(** X13: [ipGeolocation] returns the JSON body of the response whatever
    its HTTP status: [fetchJson] does not look at [res.ok]. *)
Theorem ipGeolocation_any_status w ip out q res body :
  safeEncode ip = Ok q ->
  fetch w (geo_url q) no_opts = Ok res ->
  json res = Ok body ->
  ipGeolocation w ip out = (Ok body, out).
Proof.
  intros Hq Hf Hj. by rewrite ipGeolocation_run, Hq, fetchJson_run, Hf, Hj.
Qed.

Lemma ipGeolocation_any_status_witness :
  ipGeolocation
    (serving 429 (js "{}") (Ok (VObj [("status"%string, VStr (js "fail"))])))
    (js "192.0.2.1") [] =
  (Ok (VObj [("status"%string, VStr (js "fail"))]), []).
Proof.
  apply (ipGeolocation_any_status _ _ _ (js "192.0.2.1")
           {| status := 429; text := Ok (js "{}");
              json := Ok (VObj [("status"%string, VStr (js "fail"))]) |});
    vm_compute; reflexivity.
Defined.

(** X14: every kind other than the string ip, letter for letter, is looked
    up as a domain. *)
Theorem rdapLookup_other_kind w kind name out :
  kind <> js "ip" ->
  rdapLookup w kind name out = rdapLookup w (js "domain") name out.
Proof.
  intros Hk. rewrite !rdapLookup_run. unfold rdap_url.
  by rewrite !bool_decide_eq_false_2.
Qed.

Lemma rdapLookup_other_kind_witness :
  rdapLookup offline (js "IP") (js "192.0.2.1") [] =
  rdapLookup offline (js "domain") (js "192.0.2.1") [].
Proof.
  apply rdapLookup_other_kind. discriminate.
Defined.

(** ** The phone normaliser, further *)

Lemma filter_forall (p : N -> bool) (s : jsstring) :
  Forall (fun c => p c = true) (List.filter p s).
Proof.
  apply Forall_forall. intros c Hc. apply list_elem_of_In in Hc.
  by apply List.filter_In in Hc as [_ Hc].
Qed.

Lemma drop_plus_forall (P : N -> Prop) (s : jsstring) :
  Forall P s -> Forall P (drop_plus s).
Proof.
  induction 1 as [|c t Hc Ht IH]; [done|]. cbn.
  destruct (is_plus c); [done|by constructor].
Qed.

Lemma clean_phone_chars (r0 : jsstring) :
  Forall (fun c => is_phone_char c = true) (clean r0).
Proof.
  unfold clean. cbv zeta.
  pose proof (filter_forall is_phone_char r0) as Hf.
  set (t := List.filter is_phone_char r0) in *.
  assert (Forall (fun c => is_phone_char c = true)
            (if startsWith (js "+") t then js "+" ++ drop_plus t else t)) as Hu.
  { destruct (startsWith (js "+") t); [|done].
    constructor; [done|]. by apply drop_plus_forall. }
  destruct (startsWith (js "00") _); [|done].
  constructor; [done|]. by apply Forall_drop.
Qed.

Lemma clean_no_00 (r0 : jsstring) : startsWith (js "00") (clean r0) = false.
Proof.
  unfold clean. cbv zeta.
  destruct (startsWith (js "00") (if startsWith (js "+") _ then _ else _)) eqn:H;
    done.
Qed.

(** X15: in what [normalizePhone] returns, [raw] is the input, [cleaned]
    holds digits and pluses only and never starts with 00, [digits] holds
    digits only, and [e164] is [digits] with or without one plus before
    it. *)
Theorem normalizePhone_forms (r0 : jsstring) (r : NormalizedPhone) :
  normalizePhone r0 = Some r ->
  raw r = r0
  /\ Forall (fun c => is_phone_char c = true) (cleaned r)
  /\ startsWith (js "00") (cleaned r) = false
  /\ all_digits (digits r)
  /\ (e164 r = digits r \/ e164 r = js "+" ++ digits r).
Proof.
  intros (_ & Hraw & Hc & Hd & He)%normalizePhone_Some.
  split; [done|]. rewrite Hc at 1 2. split; [apply clean_phone_chars|].
  split; [apply clean_no_00|]. split; [rewrite Hd; apply filter_all_digits|].
  rewrite He. destruct (startsWith (js "+") (cleaned r)); auto.
Qed.

Lemma normalizePhone_forms_witness :
  raw {| raw := js "0044 (0)20-7946"; cleaned := js "+440207946";
         digits := js "440207946"; e164 := js "+440207946" |}
    = js "0044 (0)20-7946"
  /\ Forall (fun c => is_phone_char c = true) (js "+440207946")
  /\ startsWith (js "00") (js "+440207946") = false
  /\ all_digits (js "440207946")
  /\ (js "+440207946" = js "440207946"
      \/ js "+440207946" = js "+" ++ js "440207946").
Proof.
  apply (normalizePhone_forms (js "0044 (0)20-7946")
           {| raw := js "0044 (0)20-7946"; cleaned := js "+440207946";
              digits := js "440207946"; e164 := js "+440207946" |}).
  vm_compute. reflexivity.
Defined.

(** X16: the replacements of [normalizePhone] come to this: keep the
    digits and the pluses, make one plus of the leading pluses, make a plus
    of a leading 00; [digits] is the digits of that, [e164] a plus and the
    digits when that starts with a plus.  The empty input gives [null]. *)
Theorem normalizePhone_pipeline (r0 : jsstring) :
  normalizePhone r0 =
  match r0 with
  | [] => None
  | _ :: _ =>
      let s := clean r0 in
      let d := List.filter is_digit s in
      Some {| raw := r0; cleaned := s; digits := d;
              e164 := if startsWith (js "+") s then js "+" ++ d else d |}
  end.
Proof. apply normalizePhone_clean. Qed.

(** X17: two non-empty inputs with the same digits and pluses in the same
    order, whatever else they hold, have the same cleaned, digits and e164
    forms. *)
Theorem normalizePhone_punctuation (r0 r1 : jsstring) :
  r0 <> [] -> r1 <> [] ->
  List.filter is_phone_char r0 = List.filter is_phone_char r1 ->
  exists r r',
    normalizePhone r0 = Some r /\ normalizePhone r1 = Some r'
    /\ cleaned r = cleaned r' /\ digits r = digits r' /\ e164 r = e164 r'.
Proof.
  intros H0 H1 Hf.
  assert (clean r0 = clean r1) as Hc by (unfold clean; by rewrite Hf).
  rewrite !normalizePhone_clean.
  destruct r0 as [|c0 t0]; [done|]. destruct r1 as [|c1 t1]; [done|].
  cbv zeta. rewrite Hc. by eexists _, _.
Qed.

Lemma normalizePhone_punctuation_witness :
  exists r r',
    normalizePhone (js "+1 (555) 123-4567") = Some r
    /\ normalizePhone (js " +1.555.123.4567") = Some r'
    /\ cleaned r = cleaned r' /\ digits r = digits r' /\ e164 r = e164 r'.
Proof.
  apply normalizePhone_punctuation; [discriminate|discriminate|].
  vm_compute. reflexivity.
Defined.

(** X18: before a string of digits the prefix 00 and the prefix [+] give
    the same cleaned and e164 forms: a plus and the digits. *)
Theorem normalizePhone_prefix_00 (d : jsstring) :
  all_digits d ->
  normalizePhone (js "00" ++ d) =
    Some {| raw := js "00" ++ d; cleaned := js "+" ++ d; digits := d;
            e164 := js "+" ++ d |}
  /\ normalizePhone (js "+" ++ d) =
    Some {| raw := js "+" ++ d; cleaned := js "+" ++ d; digits := d;
            e164 := js "+" ++ d |}.
Proof.
  intros Hd. split; [|by apply normalizePhone_plus_digits].
  rewrite normalizePhone_clean.
  change (js "00" ++ d) with (cu "0" :: cu "0" :: d). cbv zeta.
  assert (clean (cu "0" :: cu "0" :: d) = cu "+" :: d) as ->.
  { unfold clean.
    rewrite (filter_id is_phone_char (cu "0" :: cu "0" :: d)).
    - reflexivity.
    - repeat (constructor; [done|]). by apply all_digits_phone. }
  change (startsWith (js "+") (cu "+" :: d)) with true. cbv iota.
  cbn [List.filter]. change (is_digit (cu "+")) with false. cbv iota.
  by rewrite (filter_id _ _ Hd).
Qed.

Lemma normalizePhone_prefix_00_witness :
  normalizePhone (js "00" ++ js "44123456789") =
    Some {| raw := js "00" ++ js "44123456789";
            cleaned := js "+" ++ js "44123456789";
            digits := js "44123456789"; e164 := js "+" ++ js "44123456789" |}
  /\ normalizePhone (js "+" ++ js "44123456789") =
    Some {| raw := js "+" ++ js "44123456789";
            cleaned := js "+" ++ js "44123456789";
            digits := js "44123456789"; e164 := js "+" ++ js "44123456789" |}.
Proof.
  apply normalizePhone_prefix_00. unfold all_digits. repeat constructor.
Defined.

(** X19: if normalising the e164 form of an input gives a record with the
    same e164 form, that form is not empty and does not start with 00. *)
Theorem normalizePhone_fixed_only (r0 : jsstring) (r r' : NormalizedPhone) :
  normalizePhone r0 = Some r ->
  normalizePhone (e164 r) = Some r' ->
  e164 r' = e164 r ->
  e164 r <> [] /\ startsWith (js "00") (e164 r) = false.
Proof. apply normalizePhone_idempotent_only. Qed.

Lemma normalizePhone_fixed_only_witness :
  js "+15551234567" <> []
  /\ startsWith (js "00") (js "+15551234567") = false.
Proof.
  apply (normalizePhone_fixed_only (js "+1 (555) 123-4567")
           {| raw := js "+1 (555) 123-4567"; cleaned := js "+15551234567";
              digits := js "15551234567"; e164 := js "+15551234567" |}
           {| raw := js "+15551234567"; cleaned := js "+15551234567";
              digits := js "15551234567"; e164 := js "+15551234567" |});
    vm_compute; reflexivity.
Defined.

(** ** The normaliser with the scraper and the classifier *)

Lemma digit_unreserved c : is_digit c = true -> unreserved c = true.
Proof.
  unfold is_digit, unreserved. intros ->. by rewrite orb_true_r.
Qed.

(** X20: the forms of a normalised phone number are queries the scraper
    accepts: the digits are encoded as themselves, the e164 form with its
    plus as %2B, and a search for the e164 form never throws. *)
Theorem phone_query_encoded (r0 : jsstring) (r : NormalizedPhone) :
  normalizePhone r0 = Some r ->
  safeEncode (digits r) = Ok (digits r)
  /\ safeEncode (e164 r) =
       Ok (if startsWith (js "+") (cleaned r) then js "%2B" ++ digits r
           else digits r)
  /\ forall w maxResults out,
       exists rs out',
         duckDuckGoSearch w (e164 r) maxResults out = (Ok rs, out').
Proof.
  intros (_ & _ & _ & Hdg & He)%normalizePhone_Some.
  assert (all_digits (digits r)) as Hd
    by (rewrite Hdg; apply filter_all_digits).
  assert (safeEncode (digits r) = Ok (digits r)) as Hdig.
  { apply safeEncode_plain. eapply Forall_impl; [exact Hd|].
    apply digit_unreserved. }
  assert (safeEncode (e164 r) =
            Ok (if startsWith (js "+") (cleaned r) then js "%2B" ++ digits r
                else digits r)) as Henc.
  { rewrite He. destruct (startsWith (js "+") (cleaned r)); [|done].
    apply encodes_complete, (encodes_app (js "+") (js "%2B"));
      by apply encodes_sound. }
  split; [done|]. split; [done|]. intros w maxResults out.
  destruct (duckDuckGoSearch_encodable w (e164 r) maxResults out _ Henc)
    as (rs & out' & Hrun & _).
  by exists rs, out'.
Qed.

Lemma phone_query_encoded_witness :
  safeEncode (js "15551234567") = Ok (js "15551234567")
  /\ safeEncode (js "+15551234567") =
       Ok (if startsWith (js "+") (js "+15551234567")
           then js "%2B" ++ js "15551234567" else js "15551234567")
  /\ forall w maxResults out,
       exists rs out',
         duckDuckGoSearch w (js "+15551234567") maxResults out = (Ok rs, out').
Proof.
  apply (phone_query_encoded (js "+1 (555) 123-4567")
           {| raw := js "+1 (555) 123-4567"; cleaned := js "+15551234567";
              digits := js "15551234567"; e164 := js "+15551234567" |}).
  vm_compute. reflexivity.
Defined.

Lemma dotted_quad_dot (q : jsstring) : dotted_quad q -> In (cu ".") q.
Proof.
  intros (a & b & c & d & _ & _ & _ & _ & ->).
  apply in_or_app. right. by left.
Qed.

Lemma looksLikeIP_inv (q : jsstring) :
  looksLikeIP q = true -> In (cu ".") q \/ In (cu ":") q.
Proof.
  unfold looksLikeIP. change (js ":") with [cu ":"].
  intros [H|H]%orb_true_iff.
  - left. by apply dotted_quad_dot, dotted_quad_test_inv.
  - right. by apply includes_inv.
Qed.

(** X21: no form of a normalised phone number looks like an IP
    address. *)
Theorem phone_not_ip (r0 : jsstring) (r : NormalizedPhone) :
  normalizePhone r0 = Some r ->
  looksLikeIP (cleaned r) = false /\ looksLikeIP (digits r) = false
  /\ looksLikeIP (e164 r) = false.
Proof.
  intros (_ & _ & Hc & Hdg & He)%normalizePhone_Some.
  assert (forall s : jsstring,
            Forall (fun c => is_phone_char c = true) s ->
            looksLikeIP s = false) as Hno.
  { intros s Hs. apply not_true_is_false. intros Hip.
    rewrite Forall_forall in Hs.
    apply looksLikeIP_inv in Hip as [Hin|Hin];
      apply list_elem_of_In, Hs in Hin; done. }
  assert (Forall (fun c => is_phone_char c = true) (digits r)) as Hd
    by (rewrite Hdg; apply all_digits_phone, filter_all_digits).
  split; [apply Hno; rewrite Hc; apply clean_phone_chars|].
  split; [by apply Hno|]. apply Hno. rewrite He.
  destruct (startsWith (js "+") (cleaned r)); [by constructor|done].
Qed.

Lemma phone_not_ip_witness :
  looksLikeIP (js "+15551234567") = false
  /\ looksLikeIP (js "15551234567") = false
  /\ looksLikeIP (js "+15551234567") = false.
Proof.
  apply (phone_not_ip (js "+1 (555) 123-4567")
           {| raw := js "+1 (555) 123-4567"; cleaned := js "+15551234567";
              digits := js "15551234567"; e164 := js "+15551234567" |}).
  vm_compute. reflexivity.
Defined.

(** ** The classifier, further *)

(** X22: a string looks like an IP address exactly when it is four groups
    of decimal digits with dots between them or holds a colon. *)
Theorem looksLikeIP_exactly (q : jsstring) :
  looksLikeIP q = true <-> dotted_quad q \/ In (cu ":") q.
Proof.
  unfold looksLikeIP. rewrite orb_true_iff. change (js ":") with [cu ":"].
  split; intros [H|H].
  - left. by apply dotted_quad_test_inv.
  - right. by apply includes_inv.
  - left. by apply dotted_quad_test.
  - right. by apply includes_elem.
Qed.
